(** * stock-manager: the inventory mutation engine of [src/lib/index.js]

    A shallow embedding of the plugin's parser, inventory engine, history
    log, ranking aggregator, query matcher and reports, followed by the
    properties of the specification that are settled on it.

    Conventions of the embedding.
    - A JavaScript string is the list of its UTF-16 code units ([jsstring]).
      [String.prototype.toLowerCase] and the Canonicalize of
      case-insensitive matching are parameters of the development (their
      Unicode tables are not part of the repository); concrete runs use
      [asciiLower] and [asciiUpper], which agree with them on ASCII and
      caseless text.
    - A JavaScript number holding an integer is a [Z]. [parseInt] rounds
      as the code does (to the nearest double, ties to even); a digit
      string of more than 308 digits, which may read as [Infinity], is
      outside the embedding. Sums and differences are exact, as in the code
      while the values stay within 2^53 in magnitude, and [toString] prints
      all digits, as the code does for such values.
    - [Map] objects that are only looked up by key are [gmap]s; the one that
      is iterated ([userStats]) is an insertion-ordered association list.
    - Objects are values: an item changed through the reference that
      [stockData.get] returned is put back under the key it was read from.
      This is exact for tables in which every item sits under its own
      name, as in the files the plugin writes and in every state reached
      from them ([run_keyedByName]).
    - YAML serialisation is the identity on the structured data; a file
      that does not parse is the outcome [IoParseFails] of the run that
      reads it. The saved items are looked up by their own keys: a
      configured item called like a member of [Object.prototype], which
      [data[item.name]] would find, is outside the embedding.
    - Timers are the deadline they were armed with; the clock value read by
      [Date.now()] is an input of each step.
    - A handler runs from its first line to its last without another
      handler in between (the event loop only gives way inside a handler
      while records.yml is read for the first time). *)

From Stdlib Require Import ZArith NArith List Bool Lia String Ascii.
From Stdlib Require Import DecimalPos.
From stdpp Require Import base option list sorting gmap.
Import ListNotations.

Local Open Scope Z_scope.

(** ** Strings as UTF-16 code units *)

Definition code_unit := N.
Bind Scope N_scope with code_unit.
Definition jsstring := list code_unit.

(** Decodes the UTF-8 bytes of a literal of this file into its code units
    (all literals used here are in the Basic Multilingual Plane). *)
Fixpoint js (s : string) : jsstring :=
  match s with
  | EmptyString => []
  | String a s1 =>
      let b0 := N_of_ascii a in
      if (b0 <? 0x80)%N then b0 :: js s1
      else
        match s1 with
        | EmptyString => []
        | String a1 s2 =>
            let b1 := N_of_ascii a1 in
            if (b0 <? 0xE0)%N
            then ((b0 mod 0x20) * 0x40 + b1 mod 0x40)%N :: js s2
            else
              match s2 with
              | EmptyString => []
              | String a2 s3 =>
                  let b2 := N_of_ascii a2 in
                  ((b0 mod 0x10) * 0x1000 + (b1 mod 0x40) * 0x40
                   + b2 mod 0x40)%N :: js s3
              end
        end
  end.

Definition inRange (lo hi c : code_unit) : bool :=
  ((lo <=? c) && (c <=? hi))%N.

(** [\d] *)
Definition isDigit (c : code_unit) : bool := inRange 48 57 c.

(** [\w]: without the [u] and [i] flags this is [[A-Za-z0-9_]]. *)
Definition isWordChar (c : code_unit) : bool :=
  inRange 97 122 c || inRange 65 90 c || isDigit c || (c =? 95)%N.

(** What [.] refuses to match. *)
Definition isLineTerminator (c : code_unit) : bool :=
  ((c =? 0x0A) || (c =? 0x0D) || (c =? 0x2028) || (c =? 0x2029))%N.

(** WhiteSpace and LineTerminator of ECMAScript, what [trim] removes. *)
Definition isWhiteSpace (c : code_unit) : bool :=
  inRange 0x09 0x0D c || (c =? 0x20)%N || (c =? 0xA0)%N || (c =? 0x1680)%N
  || inRange 0x2000 0x200A c || (c =? 0x2028)%N || (c =? 0x2029)%N
  || (c =? 0x202F)%N || (c =? 0x205F)%N || (c =? 0x3000)%N
  || (c =? 0xFEFF)%N.

Fixpoint trimStart (s : jsstring) : jsstring :=
  match s with
  | c :: s' => if isWhiteSpace c then trimStart s' else s
  | [] => []
  end.

Definition trimEnd (s : jsstring) : jsstring := rev (trimStart (rev s)).

Definition trim (s : jsstring) : jsstring := trimEnd (trimStart s).

(** [s] ends with [suffix]. *)
Definition endsWith (suffix s : jsstring) : Prop :=
  exists pre, s = pre ++ suffix.

(** [a || b] on strings: the empty string is falsy. *)
Definition str_or (a b : jsstring) : jsstring :=
  match a with [] => b | _ => a end.

(** [toLowerCase] restricted to ASCII letters. *)
Definition asciiLower (s : jsstring) : jsstring :=
  map (fun c => if inRange 65 90 c then (c + 32)%N else c) s.

(** Decimal rendering of an integer, [Number.prototype.toString] for an
    integer of magnitude at most 2^53 (larger numbers are printed by the
    code with the fewest digits that read back, and in exponent form from
    10^21). *)
Fixpoint uintToString (d : Decimal.uint) : jsstring :=
  match d with
  | Decimal.Nil => []
  | Decimal.D0 d' => 48%N :: uintToString d'
  | Decimal.D1 d' => 49%N :: uintToString d'
  | Decimal.D2 d' => 50%N :: uintToString d'
  | Decimal.D3 d' => 51%N :: uintToString d'
  | Decimal.D4 d' => 52%N :: uintToString d'
  | Decimal.D5 d' => 53%N :: uintToString d'
  | Decimal.D6 d' => 54%N :: uintToString d'
  | Decimal.D7 d' => 55%N :: uintToString d'
  | Decimal.D8 d' => 56%N :: uintToString d'
  | Decimal.D9 d' => 57%N :: uintToString d'
  end.

Definition numToString (z : Z) : jsstring :=
  match z with
  | Z0 => [48%N]
  | Zpos p => uintToString (Pos.to_uint p)
  | Zneg p => 45%N :: uintToString (Pos.to_uint p)
  end.

Definition digitValue (c : code_unit) : Z := Z.of_N c - 48.

(** The integer a string of decimal digits denotes. *)
Definition decimalValue (s : jsstring) : Z :=
  fold_left (fun acc c => 10 * acc + digitValue c) s 0.

(** The Number value for a non-negative integer below 2^1024: the integer
    itself up to 2^53, above it the nearest integer with a 53-bit
    significand, ties to the even significand. *)
Definition toDouble (n : Z) : Z :=
  if n <? 2 ^ 53 then n
  else
    let e := Z.log2 n - 52 in
    let q := n / 2 ^ e in
    let r := n mod 2 ^ e in
    let half := 2 ^ (e - 1) in
    if (half <? r) || ((r =? half) && Z.odd q)
    then (q + 1) * 2 ^ e
    else q * 2 ^ e.

(** [parseInt(s, 10)] on a string of at most 308 decimal digits (beyond 20
    digits ECMAScript leaves the rounding to the engine; this is the
    correctly rounded value, which Node gives). *)
Definition parseInt (s : jsstring) : Z := toDouble (decimalValue s).

(** [Array.prototype.join]. *)
Fixpoint join (sep : jsstring) (l : list jsstring) : jsstring :=
  match l with
  | [] => []
  | [s] => s
  | s :: l' => s ++ sep ++ join sep l'
  end.

(** ** [Array.prototype.sort] with a comparator

    The sort is stable: of two elements that the comparator does not
    separate, the one that came first stays first. *)
Section Sort.
Context {A : Type} (cmp : A -> A -> Z).

Fixpoint sort_insert (x : A) (l : list A) : list A :=
  match l with
  | [] => [x]
  | y :: l' => if cmp x y <=? 0 then x :: y :: l' else y :: sort_insert x l'
  end.

Fixpoint js_sort (l : list A) : list A :=
  match l with
  | [] => []
  | x :: l' => sort_insert x (js_sort l')
  end.
End Sort.

Section SortOrder.
Context {A : Type} (key : A -> Z).

(** The comparators of the code all have the form
    [(a, b) => key(b) - key(a)]: largest key first. *)
Definition byKeyDesc (a b : A) : Z := key b - key a.

Definition descending : list A -> Prop :=
  StronglySorted (fun a b => key b <= key a).

Definition ascending : list A -> Prop :=
  StronglySorted (fun a b => key a <= key b).
End SortOrder.

(** An insertion-ordered [Map] with string keys, for the maps the code
    iterates: [get] and [set] as in JavaScript ([set] on a present key
    keeps its position). *)
Section OrderedMap.
Context {V : Type}.

Fixpoint omap_get (k : jsstring) (m : list (jsstring * V)) : option V :=
  match m with
  | [] => None
  | (k', v) :: m' => if decide (k' = k) then Some v else omap_get k m'
  end.

Fixpoint omap_set (k : jsstring) (v : V) (m : list (jsstring * V))
  : list (jsstring * V) :=
  match m with
  | [] => [(k, v)]
  | (k', v') :: m' =>
      if decide (k' = k) then (k, v) :: m' else (k', v') :: omap_set k v m'
  end.

Definition omap_values (m : list (jsstring * V)) : list V := map snd m.
End OrderedMap.

(** ** Data model ([StockItem], [StockRecord], [Config]) *)

Module ConfigItem.
Record t := mk { name : jsstring; aliases : list jsstring }.
End ConfigItem.

Module Config.
Record t := mk {
  whitelistGroups : list jsstring;
  getCodeTag : jsstring;
  items : list ConfigItem.t;
  queryMessages : list jsstring;
  defaultQueryMessage : jsstring
}.
End Config.

Module StockItem.
Record t := mk {
  name : jsstring;
  aliases : list jsstring;
  count : Z;
  totalAdded : Z;
  totalConsumed : Z
}.
End StockItem.

Module StockRecord.
Record t := mk {
  id : Z;
  itemName : jsstring;
  userId : jsstring;
  userName : jsstring;
  change : Z;
  timestamp : Z;
  isRanked : bool
}.
End StockRecord.

(** The object [parseOperation] returns; [operation] is the code unit the
    second group of the pattern captured. *)
Module Operation.
Record t := mk {
  itemName : jsstring;
  operation : code_unit;
  value : Z;
  noRank : bool
}.
End Operation.

(** What the handlers read of a session; a missing field is the empty
    string (the code only tests these fields for truthiness). *)
Module Session.
Record t := mk {
  channelId : jsstring;
  userId : jsstring;
  content : jsstring;
  nickname : jsstring;   (* session.author?.nickname *)
  username : jsstring
}.
End Session.

Definition PLUS : code_unit := 43.
Definition MINUS : code_unit := 45.
Definition EQUALS : code_unit := 61.

(** [[+\-=]] *)
Definition isOperator (c : code_unit) : bool :=
  ((c =? PLUS) || (c =? MINUS) || (c =? EQUALS))%N.

(** ** The two regular expressions of [parseOperation] *)

Definition optWordChar (c : option code_unit) : bool :=
  match c with Some c => isWordChar c | None => false end.

(** [\b] at a position, given the code units on both sides of it. *)
Definition wordBoundary (before after : option code_unit) : bool :=
  xorb (optWordChar before) (optWordChar after).

(** [/\b-r\b/] matches at the head of [s], which [before] precedes. *)
Definition dashRAt (before : option code_unit) (s : jsstring) : bool :=
  match s with
  | c1 :: c2 :: rest =>
      wordBoundary before (Some c1) && (c1 =? 45)%N && (c2 =? 114)%N
      && wordBoundary (Some c2) (head rest)
  | _ => false
  end.

(** [/\b-r\b/.test(s)] *)
Fixpoint testDashR (before : option code_unit) (s : jsstring) : bool :=
  match s with
  | [] => false
  | c :: s' => dashRAt before s || testDashR (Some c) s'
  end.

(** [s.replace(/\b-r\b/g, '')]: matches are found left to right and do not
    overlap; the boundaries are those of the original string. *)
Fixpoint replaceDashR (before : option code_unit) (s : jsstring) : jsstring :=
  match s with
  | [] => []
  | c1 :: s1 =>
      match s1 with
      | c2 :: s2 =>
          if dashRAt before s then replaceDashR (Some c2) s2
          else c1 :: replaceDashR (Some c1) s1
      | [] => [c1]
      end
  end.

(** No code unit of [s] is refused by [.]. *)
Definition noLineTerminator (s : jsstring) : bool :=
  forallb (fun c => negb (isLineTerminator c)) s.

(** [([+\-=])(\d+)$] at the head of [s]. *)
Definition opDigitsToEnd (s : jsstring) : option (code_unit * jsstring) :=
  match s with
  | c :: ds =>
      if isOperator c && negb (bool_decide (ds = [])) && forallb isDigit ds
      then Some (c, ds) else None
  | [] => None
  end.

(** The lazy group [(.+?)] has captured [alias]; the rest of the pattern is
    tried on [s], and on failure the group takes one more code unit. *)
Fixpoint matchLazy (alias s : jsstring)
  : option (jsstring * code_unit * jsstring) :=
  match opDigitsToEnd s with
  | Some (op, valueStr) => Some (alias, op, valueStr)
  | None =>
      match s with
      | c :: s' =>
          if isLineTerminator c then None else matchLazy (alias ++ [c]) s'
      | [] => None
      end
  end.

(** [s.match(/^(.+?)([+\-=])(\d+)$/)] *)
Definition matchOperation (s : jsstring)
  : option (jsstring * code_unit * jsstring) :=
  match s with
  | c :: s' => if isLineTerminator c then None else matchLazy [c] s'
  | [] => None
  end.

(** ** The parser *)

Section Parser.
Variable toLowerCase : jsstring -> jsstring.
Variable config : Config.t.

(** [aliasMap]: later aliases overwrite earlier ones with the same
    lower-cased key. *)
Definition aliasMap : gmap jsstring jsstring :=
  fold_left
    (fun m item =>
       fold_left
         (fun m alias => <[toLowerCase alias := ConfigItem.name item]> m)
         (ConfigItem.aliases item) m)
    (Config.items config) ∅.

(** [aliasMap.get(alias.toLowerCase()) || null] *)
Definition getItemName (alias : jsstring) : option jsstring :=
  match aliasMap !! toLowerCase alias with
  | Some [] => None
  | Some itemName => Some itemName
  | None => None
  end.

(** [item] lists an alias whose lower-cased form is [key]. *)
Definition hasAlias (key : jsstring) (item : ConfigItem.t) : bool :=
  existsb (fun alias => bool_decide (toLowerCase alias = key))
    (ConfigItem.aliases item).

Definition cleanText (text : jsstring) : jsstring :=
  trim (replaceDashR None text).

Definition parseOperation (text : jsstring) : option Operation.t :=
  let noRank := testDashR None text in
  match matchOperation (cleanText text) with
  | None => None
  | Some (alias, op, valueStr) =>
      match getItemName (trim alias) with
      | None => None
      | Some itemName =>
          Some (Operation.mk itemName op (parseInt valueStr) noRank)
      end
  end.
End Parser.

Definition defaultItems : list ConfigItem.t :=
  [ConfigItem.mk (js "纯净水") [js "water"; js "水"; js "纯净水"]].

(** The configuration the schema defaults to. *)
Definition defaultConfig : Config.t :=
  Config.mk [] (js "wmc_ref") defaultItems
    [js "{name}有多少"; js "{name}几"; js "{name}j"]
    (js "{name}当前库存：{count}瓶" ++ [10%N]
     ++ js "累计添加：{totalAdded}瓶" ++ [10%N]
     ++ js "累计消耗：{totalConsumed}瓶" ++ [10%N]
     ++ js "最近操作：{recentRecords}").

(** ** Process state and environment *)

(** The variables [apply] closes over, and the two files. [itemsFile] is
    [None] while items.yml is missing or blank; a missing or blank
    records.yml is the empty list. *)
Record State := mkState {
  stockData : gmap jsstring StockItem.t;
  nextRecordId : Z;
  recordsCache : option (list StockRecord.t);
  saveTimer : option Z;
  recordsTimer : option Z;
  itemsFile : option (gmap jsstring StockItem.t);
  recordsFile : list StockRecord.t
}.

(** Which operation on the files fails in one handler run, if any: making
    the data directory, [writeFile], or [yaml.parse] of the file that is
    read. A run that does not come to the failing operation goes through. *)
Inductive IoOutcome := IoOk | IoMkdirFails | IoWriteFails | IoParseFails.

(** What a handler run reads from outside: [Date.now()], the hex string of
    [randomBytes(3)], and the file system. *)
Record Env := mkEnv {
  now : Z;
  rand6 : jsstring;
  io : IoOutcome
}.

Inductive RankingType := consume | add.

Definition set_stockData (f : gmap jsstring StockItem.t) (st : State) :=
  mkState f (nextRecordId st) (recordsCache st) (saveTimer st)
    (recordsTimer st) (itemsFile st) (recordsFile st).
Definition set_nextRecordId (n : Z) (st : State) :=
  mkState (stockData st) n (recordsCache st) (saveTimer st)
    (recordsTimer st) (itemsFile st) (recordsFile st).
Definition set_recordsCache (c : option (list StockRecord.t)) (st : State) :=
  mkState (stockData st) (nextRecordId st) c (saveTimer st)
    (recordsTimer st) (itemsFile st) (recordsFile st).
Definition set_saveTimer (t : option Z) (st : State) :=
  mkState (stockData st) (nextRecordId st) (recordsCache st) t
    (recordsTimer st) (itemsFile st) (recordsFile st).
Definition set_recordsTimer (t : option Z) (st : State) :=
  mkState (stockData st) (nextRecordId st) (recordsCache st) (saveTimer st)
    t (itemsFile st) (recordsFile st).
Definition set_itemsFile (f : option (gmap jsstring StockItem.t))
    (st : State) :=
  mkState (stockData st) (nextRecordId st) (recordsCache st) (saveTimer st)
    (recordsTimer st) f (recordsFile st).
Definition set_recordsFile (f : list StockRecord.t) (st : State) :=
  mkState (stockData st) (nextRecordId st) (recordsCache st) (saveTimer st)
    (recordsTimer st) (itemsFile st) f.

Definition with_id (n : Z) (r : StockRecord.t) : StockRecord.t :=
  StockRecord.mk n (StockRecord.itemName r) (StockRecord.userId r)
    (StockRecord.userName r) (StockRecord.change r) (StockRecord.timestamp r)
    (StockRecord.isRanked r).

Definition with_aliases (a : list jsstring) (it : StockItem.t) : StockItem.t :=
  StockItem.mk (StockItem.name it) a (StockItem.count it)
    (StockItem.totalAdded it) (StockItem.totalConsumed it).

Definition with_count (c : Z) (it : StockItem.t) : StockItem.t :=
  StockItem.mk (StockItem.name it) (StockItem.aliases it) c
    (StockItem.totalAdded it) (StockItem.totalConsumed it).

Definition with_totalAdded (n : Z) (it : StockItem.t) : StockItem.t :=
  StockItem.mk (StockItem.name it) (StockItem.aliases it) (StockItem.count it)
    n (StockItem.totalConsumed it).

Definition with_totalConsumed (n : Z) (it : StockItem.t) : StockItem.t :=
  StockItem.mk (StockItem.name it) (StockItem.aliases it) (StockItem.count it)
    (StockItem.totalAdded it) n.

(** ** Persistence layer *)

(** [Math.max(...l)] on a non-empty array. *)
Definition maxOf (l : list Z) : Z :=
  match l with
  | [] => 0
  | x :: l' => fold_left Z.max l' x
  end.

(** [loadRecords]: a failing [ensureDataDir] or [yaml.parse] is caught and
    yields [[]]; a non-empty file moves [nextRecordId] past the ids it
    holds. *)
Definition loadRecords (e : Env) (st : State) : list StockRecord.t * State :=
  match io e with
  | IoMkdirFails => ([], st)
  | IoParseFails => ([], st)
  | _ =>
      match recordsFile st with
      | [] => ([], st)
      | records =>
          (records,
           set_nextRecordId (maxOf (map StockRecord.id records) + 1) st)
      end
  end.

(** The array [saveRecords] hands to [yaml.stringify], given the array it
    was called with already sorted in place. *)
Definition recentRecords (sorted : list StockRecord.t) : list StockRecord.t :=
  rev (take 100 sorted).

(** [records.sort((a, b) => b.timestamp - a.timestamp)] *)
Definition sortRecords (records : list StockRecord.t) : list StockRecord.t :=
  js_sort (fun a b => StockRecord.timestamp b - StockRecord.timestamp a)
    records.

(** [getRecords] *)
Definition getRecords (e : Env) (st : State) : list StockRecord.t * State :=
  match recordsCache st with
  | Some cache => (cache, st)
  | None =>
      let '(records, st1) := loadRecords e st in
      (records, set_recordsCache (Some records) st1)
  end.

(** [addRecord]: the record gets the next id, is pushed on the cache, and
    the records timer is re-armed. *)
Definition addRecord (e : Env) (record : StockRecord.t) (st : State) : State :=
  let '(cache, st1) := getRecords e st in
  let record' := with_id (nextRecordId st1) record in
  set_recordsTimer (Some (now e + 500))
    (set_recordsCache (Some (cache ++ [record']))
       (set_nextRecordId (nextRecordId st1 + 1) st1)).

(** [saveStockItem]: the table entry is set and the items timer re-armed;
    nothing is written here. *)
Definition saveStockItem (e : Env) (item : StockItem.t) (st : State) : State :=
  set_saveTimer (Some (now e + 500))
    (set_stockData (<[StockItem.name item := item]> (stockData st)) st).

(** The callback [saveStockItem] arms: [saveStockData] rewrites items.yml
    from the table; when it throws, the callback's promise is rejected
    before [saveTimer = null] and nothing else observes it. *)
Definition fireSaveTimer (o : IoOutcome) (st : State) : State :=
  match o with
  | IoOk | IoParseFails =>
      set_saveTimer None (set_itemsFile (Some (stockData st)) st)
  | IoMkdirFails | IoWriteFails => st
  end.

(** The callback [addRecord] arms. [saveRecords] sorts the cache itself (in
    place, newest first) and writes the reversed first 100 of it; a failing
    [ensureDataDir] throws before the sort, a failing [writeFile] after. *)
Definition fireRecordsTimer (o : IoOutcome) (st : State) : State :=
  match recordsCache st with
  | None => set_recordsTimer None st
  | Some cache =>
      match o with
      | IoMkdirFails => st
      | IoWriteFails => set_recordsCache (Some (sortRecords cache)) st
      | IoOk | IoParseFails =>
          set_recordsTimer None
            (set_recordsFile (recentRecords (sortRecords cache))
               (set_recordsCache (Some (sortRecords cache)) st))
      end
  end.

(** ** Ranking aggregator *)

(** One turn of the [forEach] of [getRanking] on the [userStats] map. *)
Definition rankingStep (type : RankingType)
    (userStats : list (jsstring * (jsstring * Z))) (r : StockRecord.t)
  : list (jsstring * (jsstring * Z)) :=
  let key := StockRecord.userId r in
  let current :=
    match omap_get key userStats with
    | Some cur => cur
    | None => (StockRecord.userName r, 0)
    end in
  match type with
  | consume =>
      if StockRecord.change r <? 0
      then omap_set key (fst current, snd current + Z.abs (StockRecord.change r))
             userStats
      else userStats
  | add =>
      if 0 <? StockRecord.change r
      then omap_set key (fst current, snd current + StockRecord.change r)
             userStats
      else userStats
  end.

Definition relevantRecords (itemName : jsstring)
    (allRecords : list StockRecord.t) : list StockRecord.t :=
  List.filter
    (fun r => bool_decide (StockRecord.itemName r = itemName)
              && StockRecord.isRanked r)
    allRecords.

Definition userStatsOf (type : RankingType) (itemName : jsstring)
    (allRecords : list StockRecord.t) : list (jsstring * (jsstring * Z)) :=
  fold_left (rankingStep type) (relevantRecords itemName allRecords) [].

(** The sign test of the two branches of the [forEach]. *)
Definition signOf (type : RankingType) (r : StockRecord.t) : bool :=
  match type with
  | consume => StockRecord.change r <? 0
  | add => 0 <? StockRecord.change r
  end.

(** An entry that counts for the ranking of [itemName] of the given type:
    it names the item, is ranked, and its change has the sign of the type. *)
Definition countsFor (type : RankingType) (itemName : jsstring)
    (r : StockRecord.t) : bool :=
  (bool_decide (StockRecord.itemName r = itemName) && StockRecord.isRanked r)
  && signOf type r.

(** The sum of the absolute changes of a list of entries. *)
Definition totalOf (l : list StockRecord.t) : Z :=
  fold_right (fun r acc => Z.abs (StockRecord.change r) + acc) 0 l.

(** [Array.from(userStats.values()).sort(...).slice(0, 10)] *)
Definition rankingRows (type : RankingType) (itemName : jsstring)
    (allRecords : list StockRecord.t) : list (jsstring * Z) :=
  take 10
    (js_sort (fun a b => snd b - snd a)
       (omap_values (userStatsOf type itemName allRecords))).

(** The text [getRanking] answers with when the ranking has no row. *)
Definition placeholder (type : RankingType) : jsstring :=
  match type with
  | consume => js "暂无消耗记录"
  | add => js "暂无添加记录"
  end.

Definition rankingLine (index : nat) (stat : jsstring * Z) : jsstring :=
  numToString (Z.of_nat index + 1) ++ js ". " ++ fst stat ++ js ": "
  ++ numToString (snd stat) ++ js "瓶".

Definition renderRanking (type : RankingType) (sorted : list (jsstring * Z))
  : jsstring :=
  match sorted with
  | [] =>
      match type with
      | consume => js "暂无消耗记录"
      | add => js "暂无添加记录"
      end
  | _ => join (js (String "010" EmptyString)) (imap rankingLine sorted)
  end.

(** The aggregation as the specification words it, for comparison: the
    name shown for a user is the one of the latest counted entry. *)
Definition specRankingStep (type : RankingType)
    (userStats : list (jsstring * (jsstring * Z))) (r : StockRecord.t)
  : list (jsstring * (jsstring * Z)) :=
  let key := StockRecord.userId r in
  let total :=
    match omap_get key userStats with
    | Some cur => snd cur
    | None => 0
    end in
  if countsFor type (StockRecord.itemName r) r
  then omap_set key
         (StockRecord.userName r, total + Z.abs (StockRecord.change r))
         userStats
  else userStats.

Definition specRankingRows (type : RankingType) (itemName : jsstring)
    (allRecords : list StockRecord.t) : list (jsstring * Z) :=
  take 10
    (js_sort (fun a b => snd b - snd a)
       (omap_values
          (fold_left (specRankingStep type)
             (relevantRecords itemName allRecords) []))).

(** [getRanking] *)
Definition getRanking (e : Env) (itemName : jsstring) (type : RankingType)
    (st : State) : jsstring * State :=
  match stockData st !! itemName with
  | None => ([], st)
  | Some _ =>
      let '(allRecords, st1) := getRecords e st in
      (renderRanking type (rankingRows type itemName allRecords), st1)
  end.

(** ** Reports: [handleQuery] and the [rank] command *)

Definition NL : jsstring := [10%N].

(** The replacement text of [String.prototype.replace] for a pattern
    without capture groups: [$$] is a dollar sign, [$&] the match,
    [$`] what precedes it, [$'] what follows it; any other [$] stands for
    itself. *)
Fixpoint expandReplacement (matched before after repl : jsstring) : jsstring :=
  match repl with
  | [] => []
  | c :: r =>
      if (c =? 36)%N then
        match r with
        | c2 :: r2 =>
            if (c2 =? 36)%N
            then 36%N :: expandReplacement matched before after r2
            else if (c2 =? 38)%N
            then matched ++ expandReplacement matched before after r2
            else if (c2 =? 96)%N
            then before ++ expandReplacement matched before after r2
            else if (c2 =? 39)%N
            then after ++ expandReplacement matched before after r2
            else c :: expandReplacement matched before after r
        | [] => [c]
        end
      else c :: expandReplacement matched before after r
  end.

Fixpoint isPrefixOf (p s : jsstring) : bool :=
  match p, s with
  | [], _ => true
  | c :: p', d :: s' => (c =? d)%N && isPrefixOf p' s'
  | _ :: _, [] => false
  end.

(** [s.replace(/pat/g, repl)] for a pattern [pat] that is a non-empty run of
    literal code units. [skip] code units of a match are still to be passed
    over; [passed] holds, last first, what was read so far. *)
Fixpoint replaceAllFrom (pat repl : jsstring) (skip : nat)
    (passed s : jsstring) : jsstring :=
  match s with
  | [] => []
  | c :: s' =>
      match skip with
      | S k => replaceAllFrom pat repl k (c :: passed) s'
      | O =>
          if isPrefixOf pat s
          then expandReplacement pat (rev passed) (drop (length pat) s) repl
               ++ replaceAllFrom pat repl (length pat - 1) (c :: passed) s'
          else c :: replaceAllFrom pat repl 0 (c :: passed) s'
      end
  end.

Definition replaceAll (pat repl s : jsstring) : jsstring :=
  replaceAllFrom pat repl 0 [] s.

(** One line of the recent entries: [`${r.userName} ${r.change > 0 ? '+' :
    ''}${r.change}`]. *)
Definition recentLine (r : StockRecord.t) : jsstring :=
  StockRecord.userName r ++ js " "
  ++ (if 0 <? StockRecord.change r then js "+" else [])
  ++ numToString (StockRecord.change r).

(** The entries [handleQuery] lists: [filter], [sort], [slice(0, 5)],
    [reverse]. *)
Definition queryRecent (itemName : jsstring) (allRecords : list StockRecord.t)
  : list StockRecord.t :=
  rev (take 5
         (js_sort (fun a b => StockRecord.timestamp b - StockRecord.timestamp a)
            (List.filter
               (fun r => bool_decide (StockRecord.itemName r = itemName))
               allRecords))).

(** [handleQuery], after [ensureInitialized]; [defaultQueryMessage] is the
    configured template. An item missing from the table ends the handler
    without a word. *)
Definition handleQuery (defaultQueryMessage : jsstring) (e : Env)
    (itemName : jsstring) (st : State) : State * option jsstring :=
  match stockData st !! itemName with
  | None => (st, None)
  | Some item =>
      let '(allRecords, st1) := getRecords e st in
      let recentRecords :=
        join NL (map recentLine (queryRecent itemName allRecords)) in
      let message :=
        replaceAll (js "{recentRecords}") (str_or recentRecords (js "暂无记录"))
          (replaceAll (js "{totalConsumed}")
             (numToString (StockItem.totalConsumed item))
             (replaceAll (js "{totalAdded}")
                (numToString (StockItem.totalAdded item))
                (replaceAll (js "{count}") (numToString (StockItem.count item))
                   (replaceAll (js "{name}") itemName defaultQueryMessage)))) in
      (st1, Some message)
  end.

(** ** Query matcher: [isQueryMessage] *)

Definition tempMarker : jsstring := js "__NAME_PLACEHOLDER__".

(** The class [[.*+?^${}()|[\]\\]]. *)
Definition isRegExpSpecial (c : code_unit) : bool :=
  existsb (N.eqb c)
    [46; 42; 43; 63; 94; 36; 123; 125; 40; 41; 124; 91; 93; 92]%N.

(** [s.replace(/[.*+?^${}()|[\]\\]/g, '\\$&')]: a backslash in front of
    every special code unit. *)
Definition escapeRegExp (s : jsstring) : jsstring :=
  flat_map (fun c => if isRegExpSpecial c then [92%N; c] else [c]) s.

(** The source of the regular expression built for a template: [{name}]
    becomes the marker, specials are escaped, and the marker (which its
    own escaping leaves as it is) becomes [(.+?)]. *)
Definition queryPattern (template : jsstring) : jsstring :=
  replaceAll tempMarker (js "(.+?)")
    (escapeRegExp (replaceAll (js "{name}") tempMarker template)).

(** What such a source is made of: literal code units and the group
    [(.+?)]. *)
Inductive PatternToken := Lit (c : code_unit) | Group.

(** Reading a source: [(.+?)] is a group, a backslash before a special code
    unit is that code unit, any other code unit that is not special is
    itself; [None] for sources outside this fragment. [skip] code units
    were read ahead. *)
Fixpoint compileFrom (skip : nat) (src : jsstring)
  : option (list PatternToken) :=
  match src with
  | [] => Some []
  | c :: src' =>
      match skip with
      | S k => compileFrom k src'
      | O =>
          if isPrefixOf (js "(.+?)") src
          then option_map (cons Group) (compileFrom 4 src')
          else if (c =? 92)%N then
            match src' with
            | c2 :: _ =>
                if isRegExpSpecial c2
                then option_map (cons (Lit c2)) (compileFrom 1 src')
                else None
            | [] => None
            end
          else if isRegExpSpecial c then None
          else option_map (cons (Lit c)) (compileFrom 0 src')
      end
  end.

(** The shape of [escapeRegExp s]: code units that are not special, and
    special ones behind a backslash. *)
Inductive Escaped : jsstring -> Prop :=
| Escaped_nil : Escaped []
| Escaped_plain c s :
    isRegExpSpecial c = false -> Escaped s -> Escaped (c :: s)
| Escaped_pair c s :
    isRegExpSpecial c = true -> Escaped s -> Escaped (92%N :: c :: s).

(** The same shape with the group [(.+?)] in between: the sources
    [compileFrom] reads. *)
Inductive Readable : jsstring -> Prop :=
| Readable_nil : Readable []
| Readable_plain c s :
    isRegExpSpecial c = false -> Readable s -> Readable (c :: s)
| Readable_pair c s :
    isRegExpSpecial c = true -> Readable s -> Readable (92%N :: c :: s)
| Readable_group s : Readable s -> Readable (js "(.+?)" ++ s).

Section Matcher.
(** Canonicalize of the [i] flag (the upper-case form of a code unit where
    it is a single code unit), a parameter like [toLowerCase]. *)
Variable canonicalize : code_unit -> code_unit.

(** A group in front of the rest of a pattern: it takes one code unit that
    is no line terminator, then the rest is tried, and the group takes
    another code unit when the rest fails. *)
Fixpoint growMatch (rest : jsstring -> bool) (s : jsstring) : bool :=
  match s with
  | [] => false
  | d :: s' => negb (isLineTerminator d) && (rest s' || growMatch rest s')
  end.

(** The same for the first group, keeping what it has [taken]. *)
Fixpoint growCapture (rest : jsstring -> bool) (taken s : jsstring)
  : option (option jsstring) :=
  match s with
  | [] => None
  | d :: s' =>
      if isLineTerminator d then None
      else if rest s' then Some (Some (taken ++ [d]))
      else growCapture rest (taken ++ [d]) s'
  end.

(** The tokens match the whole of [s] (the pattern is anchored by [^] and
    [$]). *)
Fixpoint matchTokens (tokens : list PatternToken) (s : jsstring) : bool :=
  match tokens with
  | [] => bool_decide (s = [])
  | Lit c :: ts =>
      match s with
      | d :: s' => (canonicalize c =? canonicalize d)%N && matchTokens ts s'
      | [] => false
      end
  | Group :: ts => growMatch (matchTokens ts) s
  end.

(** [text.match(regex)] reduced to what the code reads of it: [None] when
    there is no match, otherwise [match[1]], which is undefined ([Some
    None]) for a pattern without group. The first group is lazy: it is the
    shortest that lets the rest match. *)
Fixpoint firstGroup (tokens : list PatternToken) (s : jsstring)
  : option (option jsstring) :=
  match tokens with
  | [] => if bool_decide (s = []) then Some None else None
  | Lit c :: ts =>
      match s with
      | d :: s' =>
          if (canonicalize c =? canonicalize d)%N then firstGroup ts s'
          else None
      | [] => None
      end
  | Group :: ts => growCapture (matchTokens ts) [] s
  end.
End Matcher.

(** What a call of [isQueryMessage] comes to: no template matched with a
    known alias, an item, or the [TypeError] of [alias.toLowerCase()] on the
    undefined [match[1]] of a template without placeholder. *)
Inductive QueryResult :=
| QueryNone
| QueryItem (itemName : jsstring)
| QueryThrows
| QueryUnsupported.

Fixpoint isQueryMessage (toLowerCase : jsstring -> jsstring)
    (config : Config.t) (canonicalize : code_unit -> code_unit)
    (queryMessages : list jsstring) (text : jsstring) : QueryResult :=
  match queryMessages with
  | [] => QueryNone
  | template :: rest =>
      match compileFrom 0 (queryPattern template) with
      | None => QueryUnsupported
      | Some tokens =>
          match firstGroup canonicalize tokens text with
          | None => isQueryMessage toLowerCase config canonicalize rest text
          | Some None => QueryThrows
          | Some (Some alias) =>
              match getItemName toLowerCase config alias with
              | Some itemName => QueryItem itemName
              | None =>
                  isQueryMessage toLowerCase config canonicalize rest text
              end
          end
      end
  end.

(** [canonicalize] restricted to ASCII letters. *)
Definition asciiUpper (c : code_unit) : code_unit :=
  if inRange 97 122 c then (c - 32)%N else c.

(** ** Inventory engine *)

(** [s.replace(/:$/, '')] *)
Definition stripColon (s : jsstring) : jsstring :=
  match rev s with
  | c :: r => if (c =? 58)%N then rev r else s
  | [] => []
  end.

(** The arithmetic of [handleOperation] on the item object: the updated
    item, [change] and [actualOp], or [None] on the branch that returns
    early ([=] with [diff === 0]). *)
Definition mutate (op : Operation.t) (item : StockItem.t)
  : option (StockItem.t * Z * code_unit) :=
  let value := Operation.value op in
  if (Operation.operation op =? PLUS)%N then
    let item1 := with_count (StockItem.count item + value) item in
    let item2 :=
      if Operation.noRank op then item1
      else with_totalAdded (StockItem.totalAdded item1 + value) item1 in
    Some (item2, value, PLUS)
  else if (Operation.operation op =? MINUS)%N then
    let item1 := with_count (StockItem.count item - value) item in
    let item2 :=
      if StockItem.count item1 <? 0 then with_count 0 item1 else item1 in
    let item3 :=
      if Operation.noRank op then item2
      else with_totalConsumed (StockItem.totalConsumed item2 + value) item2 in
    Some (item3, - value, MINUS)
  else if (Operation.operation op =? EQUALS)%N then
    let diff := value - StockItem.count item in
    if 0 <? diff then
      let item1 := with_count value item in
      let item2 :=
        if Operation.noRank op then item1
        else with_totalAdded (StockItem.totalAdded item1 + diff) item1 in
      Some (item2, diff, PLUS)
    else if diff <? 0 then
      let item1 := with_count value item in
      let item2 :=
        if Operation.noRank op then item1
        else with_totalConsumed (StockItem.totalConsumed item1 + Z.abs diff)
               item1 in
      Some (item2, diff, MINUS)
    else None
  else Some (item, 0, PLUS).

Section Engine.
Variable toLowerCase : jsstring -> jsstring.
Variable config : Config.t.
Variable canonicalize : code_unit -> code_unit.

Definition createGetCode (e : Env) (timestamp : Z)
    (userId itemName : jsstring) : jsstring :=
  let tag :=
    str_or
      (stripColon (trim (str_or (Config.getCodeTag config) (js "wmc_ref"))))
      (js "wmc_ref") in
  tag ++ js ": " ++ numToString timestamp ++ js "_" ++ userId ++ js "_"
  ++ itemName ++ js "_" ++ rand6 e.

Definition isWhitelisted (groupId : jsstring) : bool :=
  match Config.whitelistGroups config with
  | [] => true
  | groups => bool_decide (groupId ∈ groups)
  end.

(** The record [handleOperation] builds before [addRecord] numbers it. *)
Definition newRecord (e : Env) (session : Session.t) (op : Operation.t)
    (change : Z) : StockRecord.t :=
  StockRecord.mk 0 (Operation.itemName op)
    (str_or (Session.userId session) (js "unknown"))
    (str_or (Session.nickname session)
       (str_or (Session.username session) (js "未知用户")))
    change (now e) (negb (Operation.noRank op)).

(** The history entry a mutation appends, once [addRecord] has numbered
    it. *)
Definition appended (e : Env) (session : Session.t) (op : Operation.t)
    (change : Z) (st : State) : StockRecord.t :=
  with_id (nextRecordId (snd (getRecords e st)))
    (newRecord e session op change).

(** [handleOperation], after [ensureInitialized]: the new state and the
    text given to [session.send]. Nothing inside its [try] block throws
    ([saveStockItem] only arms a timer, [loadRecords] catches its own
    errors), so the [catch] branch has no counterpart here. *)
Definition handleOperation (e : Env) (session : Session.t)
    (op : Operation.t) (st : State) : State * jsstring :=
  let itemName := Operation.itemName op in
  match stockData st !! itemName with
  | None => (st, js "错误：物品 " ++ itemName ++ js " 不存在")
  | Some item =>
      match mutate op item with
      | None =>
          (st, itemName ++ js " 库存未变化，当前库存："
               ++ numToString (StockItem.count item) ++ js "瓶")
      | Some (item', change, actualOp) =>
          (* the writes above went to the object held by the table *)
          let st0 := set_stockData (<[itemName := item']> (stockData st)) st in
          let st1 := saveStockItem e item' st0 in
          let opTimestamp := now e in
          let record := newRecord e session op change in
          let st2 := addRecord e record st1 in
          let changeText :=
            (if (actualOp =? PLUS)%N then js "+" else js "-")
            ++ numToString (Z.abs change) in
          let getCode :=
            createGetCode e opTimestamp (StockRecord.userId record) itemName in
          if negb (Operation.noRank op) then
            let rankingType := if (actualOp =? PLUS)%N then add else consume in
            let '(ranking, st3) := getRanking e itemName rankingType st2 in
            let rankingTitle :=
              if (actualOp =? PLUS)%N then js "累计排行榜" else js "消耗排行榜" in
            (st3, itemName ++ js " " ++ changeText ++ js "，当前库存："
                  ++ numToString (StockItem.count item') ++ js "瓶" ++ NL ++ NL
                  ++ itemName ++ rankingTitle ++ js "：" ++ NL ++ ranking
                  ++ NL ++ NL ++ getCode)
          else
            (st2, itemName ++ js " " ++ changeText ++ js "，当前库存："
                  ++ numToString (StockItem.count item') ++ js "瓶（不计入排行榜）"
                  ++ NL ++ NL ++ getCode)
      end
  end.

(** The [message] listener. Text that is not an operation goes on to the
    query matcher; when [isQueryMessage] throws, the listener's promise is
    rejected: nothing is sent and the state is as before. A template is
    never outside the fragment [compileFrom] reads
    ([queryPattern_compiles]). *)
Definition onMessage (e : Env) (session : Session.t) (st : State)
  : State * option jsstring :=
  if bool_decide (Session.channelId session = [])
     || bool_decide (Session.channelId session = Session.userId session)
  then (st, None)
  else if negb (isWhitelisted (Session.channelId session)) then (st, None)
  else
    let text := trim (Session.content session) in
    match text with
    | [] => (st, None)
    | _ =>
        match parseOperation toLowerCase config text with
        | Some operation =>
            let '(st', msg) := handleOperation e session operation st in
            (st', Some msg)
        | None =>
            match
              isQueryMessage toLowerCase config canonicalize
                (Config.queryMessages config) text
            with
            | QueryItem itemName =>
                handleQuery (Config.defaultQueryMessage config) e itemName st
            | QueryNone | QueryThrows | QueryUnsupported => (st, None)
            end
        end
    end.

(** The action of [stock.set <item> <count>]; [count] is [None] when the
    argument is missing. *)
Definition stockSet (e : Env) (session : Session.t) (item : jsstring)
    (count : option Z) (st : State) : State * option jsstring :=
  if bool_decide (Session.channelId session = []) then (st, None)
  else if negb (isWhitelisted (Session.channelId session))
  then (st, Some (js "此群不在白名单中"))
  else if bool_decide (item = []) then (st, Some (js "请指定物品"))
  else
    match count with
    | None => (st, Some (js "请指定数量"))
    | Some count =>
        match getItemName toLowerCase config item with
        | None => (st, Some (js "未找到该物品"))
        | Some itemName =>
            match stockData st !! itemName with
            | None => (st, Some (js "物品不存在"))
            | Some stockItem =>
                let stockItem' := with_count count stockItem in
                let st0 :=
                  set_stockData (<[itemName := stockItem']> (stockData st))
                    st in
                let st1 := saveStockItem e stockItem' st0 in
                let getCode :=
                  createGetCode e (now e)
                    (str_or (Session.userId session) (js "unknown"))
                    itemName in
                (st1, Some (js "已将" ++ itemName ++ js "库存设置为"
                            ++ numToString count ++ js "瓶" ++ NL ++ NL
                            ++ getCode))
            end
        end
    end.

(** The action of [rank [item]]; [type] is [options.type], empty when the
    option is missing. *)
Definition rankCommand (e : Env) (session : Session.t)
    (item type : jsstring) (st : State) : State * option jsstring :=
  if bool_decide (Session.channelId session = []) then (st, None)
  else if negb (isWhitelisted (Session.channelId session))
  then (st, Some (js "此群不在白名单中"))
  else if bool_decide (item = [])
  then (st, Some (js "请指定物品，例如：rank water 或 rank water -t add"))
  else
    match getItemName toLowerCase config item with
    | None => (st, Some (js "未找到该物品"))
    | Some itemName =>
        let type := str_or type (js "consume") in
        if bool_decide (type = js "consume") then
          let '(ranking, st1) := getRanking e itemName consume st in
          (st1, Some (itemName ++ js "消耗排行榜" ++ js "：" ++ NL ++ ranking))
        else if bool_decide (type = js "add") then
          let '(ranking, st1) := getRanking e itemName add st in
          (st1, Some (itemName ++ js "累计排行榜" ++ js "：" ++ NL ++ ranking))
        else (st, Some (js "排行榜类型必须是 consume（消耗）或 add（累计）"))
    end.

(** What can happen to the process after initialisation: a chat message
    (an operation or a query), the commands [stock.set] and [rank], and
    the two timers. [stock.list] is left out: it reads the item table and
    changes nothing, so no state is reached through it alone. *)
Inductive Event :=
| EvMessage (e : Env) (session : Session.t)
| EvStockSet (e : Env) (session : Session.t) (item : jsstring)
    (count : option Z)
| EvRank (e : Env) (session : Session.t) (item type : jsstring)
| EvSaveTimer (o : IoOutcome)
| EvRecordsTimer (o : IoOutcome).

(** One event: the new state and what is said in the chat. *)
Definition step (ev : Event) (st : State) : State * option jsstring :=
  match ev with
  | EvMessage e session => onMessage e session st
  | EvStockSet e session item count => stockSet e session item count st
  | EvRank e session item type => rankCommand e session item type st
  | EvSaveTimer o => (fireSaveTimer o st, None)
  | EvRecordsTimer o => (fireRecordsTimer o st, None)
  end.

Definition run (evs : list Event) (st : State) : State :=
  fold_left (fun s ev => fst (step ev s)) evs st.

Definition defaultItem (ci : ConfigItem.t) : StockItem.t :=
  StockItem.mk (ConfigItem.name ci) (ConfigItem.aliases ci) 0 0 0.

(** The two loops of the [try] block of [loadStockData], which are one
    loop on the saved items ([∅] for a missing or blank file): every
    configured item is set, a later item of the same name over an earlier
    one. *)
Definition seedTable (saved : gmap jsstring StockItem.t)
  : gmap jsstring StockItem.t :=
  fold_left
    (fun m ci =>
       match saved !! ConfigItem.name ci with
       | Some savedItem =>
           <[ConfigItem.name ci :=
               with_aliases (ConfigItem.aliases ci) savedItem]> m
       | None => <[ConfigItem.name ci := defaultItem ci]> m
       end)
    (Config.items config) ∅.

(** The loop of the [catch] block: only the names the table lacks are
    set, so the first configured item of a name stays. *)
Definition fallbackTable (table : gmap jsstring StockItem.t)
  : gmap jsstring StockItem.t :=
  fold_left
    (fun m ci =>
       match m !! ConfigItem.name ci with
       | Some _ => m
       | None => <[ConfigItem.name ci := defaultItem ci]> m
       end)
    (Config.items config) table.

(** The table [loadStockData] leaves behind. The [catch] block is entered
    with an empty table when the directory cannot be made or the file does
    not parse, and with the defaults when the first write fails. *)
Definition loadStockData (o : IoOutcome)
    (file : option (gmap jsstring StockItem.t))
  : gmap jsstring StockItem.t :=
  match o, file with
  | IoMkdirFails, _ => fallbackTable ∅
  | IoParseFails, Some _ => fallbackTable ∅
  | IoWriteFails, None => fallbackTable (seedTable ∅)
  | _, None => seedTable ∅
  | _, Some data => seedTable data
  end.

(** The state [ensureInitialized] establishes from the two files: [o] is
    how loading the item table goes, [o'] how the preloading of the records
    goes, which only moves [nextRecordId]. *)
Definition initialState (o o' : IoOutcome)
    (items : option (gmap jsstring StockItem.t))
    (records : list StockRecord.t) : State :=
  let table := loadStockData o items in
  let items' :=
    match o, items with
    | IoOk, None | IoParseFails, None => Some table
    | _, _ => items
    end in
  let st0 := mkState table 1 None None None items' records in
  snd (loadRecords (mkEnv 0 [] o') st0).

Definition Reachable (st : State) : Prop :=
  exists o o' items records evs,
    st = run evs (initialState o o' items records).
End Engine.

(** Every count of the item table is 0 or more. *)
Definition countsNonneg (st : State) : Prop :=
  forall k item, stockData st !! k = Some item -> 0 <= StockItem.count item.

(** ** A concrete deployment: the default configuration *)

Definition demoSession (text : string) : Session.t :=
  Session.mk (js "group1") (js "10001") (js text) (js "Alice") (js "alice").

Definition demoEnv (t : Z) : Env := mkEnv t (js "a1b2c3") IoOk.

Definition freshState : State :=
  initialState defaultConfig IoOk IoOk None [].

Definition demoRun (texts : list (Z * string)) : State :=
  run asciiLower defaultConfig asciiUpper
    (map (fun '(t, s) => EvMessage (demoEnv t) (demoSession s)) texts)
    freshState.

Definition waterName : jsstring := js "纯净水".

Definition waterItem (count totalAdded totalConsumed : Z) : StockItem.t :=
  StockItem.mk waterName [js "water"; js "水"; js "纯净水"]
    count totalAdded totalConsumed.

(** After [water+5] and [water-3]: count 2. *)
Definition stockOfTwo : State :=
  demoRun [(1000, "water+5"); (2000, "water-3")]%string.

(** 101 increases by one user, then a successful write of the history. *)
Definition hundredAndOne : list Event :=
  map (fun n => EvMessage (demoEnv (1000 * Z.of_nat n)) (demoSession "water+1"))
    (seq 1 101)
  ++ [EvRecordsTimer IoOk].

Definition afterHundredAndOne : State :=
  run asciiLower defaultConfig asciiUpper hundredAndOne freshState.

(** The process after the 101 increases, before the write, and the log it
    holds then. *)
Definition beforeWrite : State :=
  run asciiLower defaultConfig asciiUpper (take 101 hundredAndOne) freshState.

Definition logOfHundredAndOne : list StockRecord.t :=
  map (fun n =>
         StockRecord.mk (Z.of_nat n) waterName (js "10001") (js "Alice") 1
           (1000 * Z.of_nat n) true)
    (seq 1 101).

(** Two ranked increases by the same user id under two names. *)
Definition renameLog : list StockRecord.t :=
  [StockRecord.mk 1 waterName (js "10001") (js "Old") 1 1000 true;
   StockRecord.mk 2 waterName (js "10001") (js "New") 2 2000 true].

(** Eleven users with one ranked increase each, of 1 to 11. *)
Definition elevenUsers : list StockRecord.t :=
  map (fun n =>
         StockRecord.mk (Z.of_nat n) waterName (numToString (Z.of_nat n))
           (js "user") (Z.of_nat n) (1000 * Z.of_nat n) true)
    (seq 1 11).



(** [stock.set water -5] in a whitelisted group. *)
Definition setNegative : Event :=
  EvStockSet (demoEnv 1000) (demoSession "") (js "water") (Some (-5)).

(** ** Invariants of the process state *)

(** The [try] block of [loadStockData] fails before any item is set: the
    data directory cannot be made, or items.yml has text that does not
    parse. *)
Definition loadFails (o : IoOutcome)
    (file : option (gmap jsstring StockItem.t)) : bool :=
  match o, file with
  | IoMkdirFails, _ => true
  | IoParseFails, Some _ => true
  | _, _ => false
  end.

(** What [loadStockData] takes the saved items from: nothing when the load
    fails or items.yml is missing or blank. *)
Definition savedItems (o : IoOutcome)
    (file : option (gmap jsstring StockItem.t)) : gmap jsstring StockItem.t :=
  if loadFails o file then ∅
  else match file with Some data => data | None => ∅ end.

(** The names every object answers to through [Object.prototype]: as
    [data[item.name]] finds them in any parsed file, an item of such a name
    is outside the embedding. *)
Definition objectPrototypeKeys : list jsstring :=
  [js "constructor"; js "__proto__"; js "hasOwnProperty"; js "isPrototypeOf";
   js "propertyIsEnumerable"; js "toLocaleString"; js "toString";
   js "valueOf"; js "__defineGetter__"; js "__defineSetter__";
   js "__lookupGetter__"; js "__lookupSetter__"].

Definition ownNames (config : Config.t) : Prop :=
  forall ci,
    In ci (Config.items config) ->
    ~ In (ConfigItem.name ci) objectPrototypeKeys.

(** Every configured item has an entry in the table. *)
Definition configuredPresent (config : Config.t) (st : State) : Prop :=
  forall ci,
    In ci (Config.items config) ->
    is_Some (stockData st !! ConfigItem.name ci).

(** Every item of the table sits under its own name. *)
Definition keyedByName (st : State) : Prop :=
  forall k item, stockData st !! k = Some item -> StockItem.name item = k.

(** Every entry of the loaded log has an id below the next one to give. *)
Definition idsBelowNext (st : State) : Prop :=
  forall cache,
    recordsCache st = Some cache ->
    Forall (fun r => StockRecord.id r < nextRecordId st) cache.

(** The last configured item called [k], the one whose [stockData.set]
    stays in the [try] block. *)
Definition configuredAs (config : Config.t) (k : jsstring)
  : option ConfigItem.t :=
  find (fun ci => bool_decide (ConfigItem.name ci = k))
    (rev (Config.items config)).

(** The first configured item called [k], the one the [catch] block
    sets. *)
Definition firstConfiguredAs (config : Config.t) (k : jsstring)
  : option ConfigItem.t :=
  find (fun ci => bool_decide (ConfigItem.name ci = k)) (Config.items config).

(** ** Properties of the sort *)

Section SortFacts.
Context {A : Type} (key : A -> Z).

Lemma sort_insert_perm (cmp : A -> A -> Z) x l :
  sort_insert cmp x l ≡ₚ x :: l.
Proof.
  induction l as [|y l IH]; cbn; [reflexivity|].
  destruct (cmp x y <=? 0); [reflexivity|].
  rewrite IH. apply Permutation_swap.
Qed.

Lemma js_sort_perm (cmp : A -> A -> Z) l : js_sort cmp l ≡ₚ l.
Proof.
  induction l as [|x l IH]; cbn; [reflexivity|].
  rewrite sort_insert_perm, IH. reflexivity.
Qed.

Lemma sort_insert_descending x l :
  descending key l -> descending key (sort_insert (byKeyDesc key) x l).
Proof.
  unfold descending.
  induction l as [|y l IH]; intros Hs; cbn.
  - repeat constructor.
  - apply StronglySorted_cons in Hs as [Hy Hs]. unfold byKeyDesc at 1.
    destruct (Z.leb_spec (key y - key x) 0) as [Hle|Hgt].
    + apply StronglySorted_cons. split.
      * constructor; [lia|]. eapply Forall_impl; [exact Hy|].
        cbn. intros; lia.
      * apply StronglySorted_cons. auto.
    + apply StronglySorted_cons. split; [|auto].
      rewrite sort_insert_perm. constructor; [lia|exact Hy].
Qed.

Lemma js_sort_descending l : descending key (js_sort (byKeyDesc key) l).
Proof.
  induction l as [|x l IH]; cbn.
  - constructor.
  - apply sort_insert_descending, IH.
Qed.

Lemma descending_rev l : descending key l -> ascending key (rev l).
Proof.
  unfold descending, ascending.
  induction l as [|x l IH]; intros Hs; cbn; [constructor|].
  apply StronglySorted_cons in Hs as [Hx Hs].
  apply StronglySorted_app_2; [|auto|repeat constructor].
  intros a b Ha Hb. apply list_elem_of_singleton in Hb as ->.
  rewrite Forall_forall in Hx. apply Hx.
  apply list_elem_of_In, in_rev, list_elem_of_In. exact Ha.
Qed.

(** The first [n] of a descending list: what is cut off is no larger
    than anything kept. *)
Lemma descending_take n l :
  descending key l ->
  descending key (take n l)
  /\ forall a b, a ∈ take n l -> b ∈ drop n l -> key b <= key a.
Proof.
  unfold descending. intros Hs. rewrite <- (take_drop n l) in Hs.
  apply StronglySorted_app in Hs as (Hcut & Ht & _). split; [exact Ht|].
  intros a b Ha Hb. exact (Hcut a b Ha Hb).
Qed.
End SortFacts.

(** ** Properties of the parser *)

Lemma operator_cases c :
  isOperator c = true -> c = PLUS \/ c = MINUS \/ c = EQUALS.
Proof.
  unfold isOperator. rewrite !orb_true_iff, !N.eqb_eq. tauto.
Qed.

Lemma operator_not_digit c : isOperator c = true -> isDigit c = false.
Proof.
  intros H. destruct (operator_cases c H) as [-> | [-> | ->]]; reflexivity.
Qed.

Lemma opDigitsToEnd_Some s o ds :
  opDigitsToEnd s = Some (o, ds) <->
  s = o :: ds /\ isOperator o = true /\ ds <> [] /\ forallb isDigit ds = true.
Proof.
  unfold opDigitsToEnd. destruct s as [|c s'].
  - split; [discriminate | intros [H _]; discriminate].
  - split.
    + destruct (isOperator c) eqn:Ho; cbn [andb]; [|discriminate].
      destruct (bool_decide_reflect (s' = [])) as [He|He]; cbn [negb andb];
        [discriminate|].
      destruct (forallb isDigit s') eqn:Hd; [|discriminate].
      intros H; injection H as <- <-. auto.
    + intros (Hs & Ho & Hne & Hd). injection Hs as -> ->.
      rewrite Ho. cbn [andb]. rewrite bool_decide_false by exact Hne.
      cbn [negb andb]. rewrite Hd. reflexivity.
Qed.


Lemma matchLazy_complete mid alias o ds :
  noLineTerminator mid = true ->
  isOperator o = true -> ds <> [] -> forallb isDigit ds = true ->
  matchLazy alias (mid ++ o :: ds) = Some (alias ++ mid, o, ds).
Proof.
  revert alias. induction mid as [|c mid IH]; intros alias Hlt Ho Hne Hd.
  - cbn [app matchLazy].
    assert (H : opDigitsToEnd (o :: ds) = Some (o, ds))
      by (apply opDigitsToEnd_Some; auto).
    destruct ds; [congruence|]. cbn [matchLazy]. rewrite H.
    rewrite app_nil_r. reflexivity.
  - cbn in Hlt. apply andb_true_iff in Hlt as [Hc Hlt].
    cbn [app matchLazy].
    destruct (opDigitsToEnd (c :: mid ++ o :: ds)) as [[o' ds']|] eqn:Hod.
    + exfalso. apply opDigitsToEnd_Some in Hod as (Hs & _ & _ & Hd').
      injection Hs as <- <-. rewrite forallb_app in Hd'. cbn in Hd'.
      rewrite (operator_not_digit _ Ho), andb_false_r in Hd'. discriminate.
    + apply negb_true_iff in Hc. rewrite Hc.
      rewrite (IH (alias ++ [c]) Hlt Ho Hne Hd), <- app_assoc. reflexivity.
Qed.

Lemma matchLazy_sound s alias alias' o ds :
  matchLazy alias s = Some (alias', o, ds) ->
  exists mid,
    alias' = alias ++ mid /\ s = mid ++ o :: ds /\ noLineTerminator mid = true
    /\ isOperator o = true /\ ds <> [] /\ forallb isDigit ds = true.
Proof.
  revert alias. induction s as [|c s IH]; intros alias H.
  - cbn in H. discriminate.
  - cbn [matchLazy] in H.
    destruct (opDigitsToEnd (c :: s)) as [[o' ds']|] eqn:Hod.
    + injection H as <- <- <-.
      apply opDigitsToEnd_Some in Hod as (Hs & Ho & Hne & Hd).
      exists []. rewrite app_nil_r. repeat split; auto.
    + destruct (isLineTerminator c) eqn:Hc; [discriminate|].
      destruct (IH _ H) as (mid & -> & -> & Hlt & Ho & Hne & Hd).
      exists (c :: mid). rewrite <- app_assoc. cbn. rewrite Hc.
      repeat split; auto.
Qed.

(** [matchOperation] succeeds exactly on a non-empty prefix free of line
    terminators, one operator, and digits up to the end, and returns these
    three parts. *)
Lemma matchOperation_spec s alias o ds :
  matchOperation s = Some (alias, o, ds) <->
  s = alias ++ o :: ds /\ alias <> [] /\ noLineTerminator alias = true
  /\ isOperator o = true /\ ds <> [] /\ forallb isDigit ds = true.
Proof.
  split.
  - destruct s as [|c s]; [discriminate|]. cbn [matchOperation].
    destruct (isLineTerminator c) eqn:Hc; [discriminate|]. intros H.
    destruct (matchLazy_sound _ _ _ _ _ H) as (mid & -> & -> & Hlt & Ho & Hne & Hd).
    cbn. rewrite Hc. repeat split; auto; discriminate.
  - intros (-> & Hne & Hlt & Ho & Hds & Hd).
    destruct alias as [|c mid]; [congruence|].
    cbn in Hlt. apply andb_true_iff in Hlt as [Hc Hlt].
    apply negb_true_iff in Hc. cbn [app matchOperation]. rewrite Hc.
    apply (matchLazy_complete mid [c]); auto.
Qed.

Lemma digitValue_range c : isDigit c = true -> 0 <= digitValue c <= 9.
Proof.
  unfold isDigit, inRange, digitValue.
  rewrite andb_true_iff, !N.leb_le. lia.
Qed.

Lemma decimalValue_acc_nonneg s acc :
  0 <= acc -> forallb isDigit s = true ->
  0 <= fold_left (fun acc c => 10 * acc + digitValue c) s acc.
Proof.
  revert acc. induction s as [|c s IH]; intros acc Hacc Hd; cbn in *.
  - exact Hacc.
  - apply andb_true_iff in Hd as [Hc Hd].
    apply IH; [|exact Hd]. pose proof (digitValue_range c Hc). lia.
Qed.

Lemma decimalValue_nonneg s : forallb isDigit s = true -> 0 <= decimalValue s.
Proof. apply decimalValue_acc_nonneg. lia. Qed.

Lemma toDouble_nonneg n : 0 <= n -> 0 <= toDouble n.
Proof.
  intros Hn. unfold toDouble.
  destruct (n <? 2 ^ 53); [exact Hn|].
  assert (Hp : 0 <= 2 ^ (Z.log2 n - 52)) by (apply Z.pow_nonneg; lia).
  assert (Hq : 0 <= n / 2 ^ (Z.log2 n - 52))
    by (apply Z_div_nonneg_nonneg; assumption).
  destruct (_ || _); apply Z.mul_nonneg_nonneg; lia.
Qed.

(** Up to 2^53 every integer is a double. *)
Lemma toDouble_exact n : n <= 2 ^ 53 -> toDouble n = n.
Proof.
  intros Hn. unfold toDouble.
  destruct (Z.ltb_spec n (2 ^ 53)) as [|Hge]; [reflexivity|].
  assert (n = 2 ^ 53) as -> by lia. reflexivity.
Qed.


Lemma parseInt_nonneg s : forallb isDigit s = true -> 0 <= parseInt s.
Proof. intros Hd. apply toDouble_nonneg, decimalValue_nonneg, Hd. Qed.

Lemma find_app {A} (f : A -> bool) l1 l2 :
  find f (l1 ++ l2)
  = match find f l1 with Some x => Some x | None => find f l2 end.
Proof.
  induction l1 as [|x l1 IH]; cbn; [reflexivity|].
  destruct (f x); [reflexivity|exact IH].
Qed.

Section ParserFacts.
Variable toLowerCase : jsstring -> jsstring.
Variable config : Config.t.

Lemma fold_aliases_lookup (n : jsstring) (aliases : list jsstring)
    (m : gmap jsstring jsstring) (k : jsstring) :
  fold_left (fun m alias => <[toLowerCase alias := n]> m) aliases m !! k
  = if existsb (fun alias => bool_decide (toLowerCase alias = k)) aliases
    then Some n else m !! k.
Proof.
  revert m. induction aliases as [|a l IH]; intros m; cbn; [reflexivity|].
  rewrite IH. destruct (existsb _ l); [rewrite orb_true_r; reflexivity|].
  rewrite orb_false_r.
  destruct (bool_decide_reflect (toLowerCase a = k)) as [->|Hne].
  - apply lookup_insert_eq.
  - apply lookup_insert_ne. exact Hne.
Qed.

Lemma fold_items_lookup (items : list ConfigItem.t)
    (m : gmap jsstring jsstring) (k : jsstring) :
  fold_left
    (fun m item =>
       fold_left
         (fun m alias => <[toLowerCase alias := ConfigItem.name item]> m)
         (ConfigItem.aliases item) m)
    items m !! k
  = match find (hasAlias toLowerCase k) (rev items) with
    | Some item => Some (ConfigItem.name item)
    | None => m !! k
    end.
Proof.
  revert m. induction items as [|i l IH]; intros m; cbn [fold_left rev];
    [reflexivity|].
  rewrite IH, find_app. destruct (find _ (rev l)); [reflexivity|].
  rewrite fold_aliases_lookup. cbn [find]. unfold hasAlias.
  destruct (existsb _ (ConfigItem.aliases i)); reflexivity.
Qed.

(** The alias index answers with the name of the last configured item
    that lists the alias, compared after lower-casing both sides. *)
Lemma getItemName_spec alias :
  getItemName toLowerCase config alias
  = match find (hasAlias toLowerCase (toLowerCase alias))
            (rev (Config.items config)) with
    | Some item =>
        match ConfigItem.name item with [] => None | n => Some n end
    | None => None
    end.
Proof.
  unfold getItemName, aliasMap. rewrite fold_items_lookup.
  destruct (find _ _) as [item|]; [|rewrite lookup_empty; reflexivity].
  destruct (ConfigItem.name item); reflexivity.
Qed.

Lemma parseOperation_matched text alias o ds :
  matchOperation (cleanText text) = Some (alias, o, ds) ->
  parseOperation toLowerCase config text
  = match getItemName toLowerCase config (trim alias) with
    | Some itemName =>
        Some (Operation.mk itemName o (parseInt ds) (testDashR None text))
    | None => None
    end.
Proof. unfold parseOperation. intros ->. reflexivity. Qed.

Lemma parseOperation_Some text r :
  parseOperation toLowerCase config text = Some r ->
  exists alias ds,
    matchOperation (cleanText text) = Some (alias, Operation.operation r, ds)
    /\ getItemName toLowerCase config (trim alias)
       = Some (Operation.itemName r)
    /\ Operation.value r = parseInt ds
    /\ Operation.noRank r = testDashR None text.
Proof.
  unfold parseOperation.
  destruct (matchOperation (cleanText text)) as [[[alias o] ds]|];
    [|discriminate].
  destruct (getItemName toLowerCase config (trim alias)) as [n|] eqn:Hn;
    [|discriminate].
  intros H. injection H as <-. exists alias, ds. repeat split. exact Hn.
Qed.

Lemma parseOperation_value_nonneg text r :
  parseOperation toLowerCase config text = Some r -> 0 <= Operation.value r.
Proof.
  intros Hr.
  destruct (parseOperation_Some text r Hr) as (alias & ds & Hm & _ & Hv & _).
  apply matchOperation_spec in Hm as (_ & _ & _ & _ & _ & Hd).
  rewrite Hv. apply parseInt_nonneg. exact Hd.
Qed.

End ParserFacts.

(** ** Properties of the ranking aggregator *)

Section OrderedMapFacts.
Context {V : Type}.

Lemma omap_get_set_eq k (v : V) m : omap_get k (omap_set k v m) = Some v.
Proof.
  induction m as [|[k' v'] m IH]; cbn.
  - rewrite decide_True by reflexivity. reflexivity.
  - destruct (decide (k' = k)) as [->|Hne]; cbn.
    + rewrite decide_True by reflexivity. reflexivity.
    + rewrite decide_False by exact Hne. exact IH.
Qed.

Lemma omap_get_set_ne k k' (v : V) m :
  k <> k' -> omap_get k' (omap_set k v m) = omap_get k' m.
Proof.
  intros Hne. induction m as [|[k0 v0] m IH]; cbn.
  - rewrite decide_False by exact Hne. reflexivity.
  - destruct (decide (k0 = k)) as [->|Hk]; cbn.
    + rewrite !decide_False by exact Hne. reflexivity.
    + destruct (decide (k0 = k')); [reflexivity|exact IH].
Qed.

Lemma omap_get_None k (m : list (jsstring * V)) :
  omap_get k m = None <-> ~ In k (map fst m).
Proof.
  induction m as [|[k' v'] m IH]; cbn; [tauto|].
  destruct (decide (k' = k)) as [->|Hne].
  - split; [discriminate|]. intros H. exfalso. apply H. left. reflexivity.
  - rewrite IH. tauto.
Qed.

Lemma omap_set_keys k (v : V) m :
  map fst (omap_set k v m)
  = match omap_get k m with
    | Some _ => map fst m
    | None => map fst m ++ [k]
    end.
Proof.
  induction m as [|[k' v'] m IH]; cbn; [reflexivity|].
  destruct (decide (k' = k)) as [->|Hne]; cbn; [reflexivity|].
  rewrite IH. destruct (omap_get k m); reflexivity.
Qed.

Lemma omap_set_NoDup k (v : V) m :
  List.NoDup (map fst m) -> List.NoDup (map fst (omap_set k v m)).
Proof.
  intros Hnd. rewrite omap_set_keys.
  destruct (omap_get k m) eqn:Hg; [exact Hnd|].
  apply omap_get_None in Hg.
  apply NoDup_ListNoDup, NoDup_app. apply NoDup_ListNoDup in Hnd.
  split; [exact Hnd|]. split; [|apply NoDup_singleton].
  intros x Hx Hk. apply list_elem_of_singleton in Hk as ->.
  apply Hg, list_elem_of_In, Hx.
Qed.
End OrderedMapFacts.

Lemma rankingStep_eq type userStats r :
  rankingStep type userStats r
  = if signOf type r
    then omap_set (StockRecord.userId r)
           (match omap_get (StockRecord.userId r) userStats with
            | Some cur => (fst cur, snd cur + Z.abs (StockRecord.change r))
            | None => (StockRecord.userName r, Z.abs (StockRecord.change r))
            end)
           userStats
    else userStats.
Proof.
  unfold rankingStep, signOf. destruct type.
  - destruct (StockRecord.change r <? 0); [|reflexivity].
    destruct (omap_get _ userStats); reflexivity.
  - destruct (Z.ltb_spec 0 (StockRecord.change r)) as [Hpos|]; [|reflexivity].
    rewrite Z.abs_eq by lia. destruct (omap_get _ userStats); reflexivity.
Qed.

Lemma totalOf_cons r l :
  totalOf (r :: l) = Z.abs (StockRecord.change r) + totalOf l.
Proof. reflexivity. Qed.

Lemma rankingStep_NoDup type l acc :
  List.NoDup (map fst acc) ->
  List.NoDup (map fst (fold_left (rankingStep type) l acc)).
Proof.
  revert acc. induction l as [|r l IH]; intros acc Hnd; cbn; [exact Hnd|].
  apply IH. rewrite rankingStep_eq.
  destruct (signOf type r); [apply omap_set_NoDup|]; exact Hnd.
Qed.

(** The aggregate per user after the loop: a user already in the map keeps
    the name and adds to the total; a new user gets the name of the first
    entry that counts. *)
Lemma rankingStep_fold type uid l acc :
  omap_get uid (fold_left (rankingStep type) l acc)
  = let mine :=
      List.filter
        (fun r => signOf type r && bool_decide (StockRecord.userId r = uid)) l in
    match omap_get uid acc with
    | Some cur => Some (fst cur, snd cur + totalOf mine)
    | None =>
        match mine with
        | [] => None
        | r :: _ => Some (StockRecord.userName r, totalOf mine)
        end
    end.
Proof.
  revert acc. induction l as [|r l IH]; intros acc; cbn [fold_left List.filter].
  - cbn. destruct (omap_get uid acc) as [[n c]|]; [|reflexivity].
    cbn. rewrite Z.add_0_r. reflexivity.
  - rewrite IH, rankingStep_eq. cbv zeta.
    destruct (signOf type r); cbn [andb]; [|reflexivity].
    destruct (bool_decide_reflect (StockRecord.userId r = uid)) as [Hu|Hu].
    + rewrite Hu, omap_get_set_eq.
      destruct (omap_get uid acc) as [[n c]|]; rewrite totalOf_cons;
        cbn [fst snd].
      * f_equal. f_equal. lia.
      * reflexivity.
    + rewrite (omap_get_set_ne _ _ _ _ Hu). reflexivity.
Qed.

Lemma filter_filter {A} (f g : A -> bool) l :
  List.filter f (List.filter g l) = List.filter (fun x => g x && f x) l.
Proof.
  induction l as [|x l IH]; cbn; [reflexivity|].
  destruct (g x); cbn; [|exact IH]. destruct (f x); [f_equal|]; exact IH.
Qed.

Lemma userStatsOf_lookup type itemName log uid :
  omap_get uid (userStatsOf type itemName log)
  = match List.filter
            (fun r => countsFor type itemName r
                      && bool_decide (StockRecord.userId r = uid)) log with
    | [] => None
    | r :: rs => Some (StockRecord.userName r, totalOf (r :: rs))
    end.
Proof.
  unfold userStatsOf, relevantRecords. rewrite rankingStep_fold.
  cbv zeta. cbn [omap_get]. rewrite filter_filter.
  rewrite (filter_ext _
             (fun r => countsFor type itemName r
                       && bool_decide (StockRecord.userId r = uid))).
  - destruct (List.filter _ log); reflexivity.
  - intros r. unfold countsFor. rewrite andb_assoc. reflexivity.
Qed.

Lemma rankingStep_skips type l acc :
  (forall r, In r l -> signOf type r = false) ->
  fold_left (rankingStep type) l acc = acc.
Proof.
  revert acc. induction l as [|r l IH]; intros acc Hl; cbn; [reflexivity|].
  rewrite rankingStep_eq, (Hl r) by (left; reflexivity).
  apply IH. intros r' Hr'. apply Hl. right. exact Hr'.
Qed.

Lemma renderRanking_nonempty type rows : renderRanking type rows <> [].
Proof.
  destruct rows as [|x rows].
  - destruct type; vm_compute; discriminate.
  - unfold renderRanking. cbn [imap].
    destruct (imap (rankingLine ∘ S) rows); cbn [join]; unfold rankingLine;
      change (numToString (Z.of_nat 0 + 1)) with [49%N]; discriminate.
Qed.

(** In a sorted list, the first element a filter keeps is related to
    every other element it keeps. *)
Lemma filter_head_sorted {A} (R : A -> A -> Prop) (f : A -> bool) l x xs :
  StronglySorted R l -> List.filter f l = x :: xs -> Forall (R x) xs.
Proof.
  induction l as [|a l IH]; intros Hs Hf; [discriminate|].
  apply StronglySorted_cons in Hs as [Ha Hs]. cbn [List.filter] in Hf.
  destruct (f a); [|exact (IH Hs Hf)].
  injection Hf as <- <-. apply Forall_forall. intros y Hy.
  apply list_elem_of_In, filter_In in Hy as [Hy _].
  rewrite Forall_forall in Ha. apply Ha, list_elem_of_In, Hy.
Qed.

(** C7, as the code has it. For every log, item and ranking type: a user
    appears in the aggregate exactly when one of the user's entries counts
    (names the item, is ranked, and has the sign of the type: positive for
    [add], negative for [consume]); the total is the sum of the absolute
    changes of these entries and the name shown is the one of the first of
    them in the order the log has: the newest of them when the log is
    sorted newest first, as a history write leaves it, and the oldest when
    it is in order of arrival. No user appears twice. The rows are the
    first ten of the totals in descending order, all of them when there
    are fewer. For an item of the table, [getRanking] renders these rows,
    and renders the "no records" text of the type, never an empty string,
    when no entry counts. *)
Theorem ranking_sums_per_user_first_name type itemName log :
  let stats := userStatsOf type itemName log in
  let rows := rankingRows type itemName log in
  let mine := fun uid =>
    List.filter
      (fun r => countsFor type itemName r
                && bool_decide (StockRecord.userId r = uid)) log in
  (forall uid,
      omap_get uid stats
      = match mine uid with
        | [] => None
        | r :: rs => Some (StockRecord.userName r, totalOf (r :: rs))
        end)
  /\ (descending StockRecord.timestamp log ->
      forall uid r rs,
        mine uid = r :: rs ->
        Forall (fun r' => StockRecord.timestamp r' <= StockRecord.timestamp r)
          rs)
  /\ (ascending StockRecord.timestamp log ->
      forall uid r rs,
        mine uid = r :: rs ->
        Forall (fun r' => StockRecord.timestamp r <= StockRecord.timestamp r')
          rs)
  /\ List.NoDup (map fst stats)
  /\ length rows = Nat.min 10 (length stats)
  /\ descending snd rows
  /\ (exists rest,
        omap_values stats ≡ₚ rows ++ rest
        /\ forall a b, a ∈ rows -> b ∈ rest -> snd b <= snd a)
  /\ (forall e st item,
        stockData st !! itemName = Some item ->
        recordsCache st = Some log ->
        getRanking e itemName type st = (renderRanking type rows, st))
  /\ ((forall r, In r log -> countsFor type itemName r = false) ->
      renderRanking type rows = placeholder type)
  /\ renderRanking type rows <> [].
Proof.
  intros stats rows mine.
  pose proof (js_sort_descending snd (omap_values stats)) as Hd.
  destruct (descending_take snd 10 _ Hd) as [Ht Hcut].
  split; [intros uid; apply userStatsOf_lookup|].
  split.
  { intros Hs uid r rs Hm.
    exact (filter_head_sorted _ _ _ _ _ Hs Hm). }
  split.
  { intros Hs uid r rs Hm.
    exact (filter_head_sorted _ _ _ _ _ Hs Hm). }
  split; [apply rankingStep_NoDup; constructor|].
  split.
  { unfold rows, rankingRows. fold stats.
    rewrite length_take, (Permutation_length (js_sort_perm _ _)).
    unfold omap_values. rewrite length_map. lia. }
  split; [exact Ht|].
  split.
  { exists (drop 10 (js_sort (byKeyDesc snd) (omap_values stats))). split.
    - unfold rows, rankingRows. fold stats.
      change (fun a b : jsstring * Z => snd b - snd a) with (byKeyDesc (@snd jsstring Z)).
      rewrite take_drop. symmetry. apply js_sort_perm.
    - intros a b Ha Hb. exact (Hcut a b Ha Hb). }
  split.
  { intros e st item Hitem Hcache. unfold getRanking, getRecords.
    rewrite Hitem, Hcache. reflexivity. }
  split; [|apply renderRanking_nonempty].
  intros Hnone. unfold rows, rankingRows, userStatsOf.
  rewrite rankingStep_skips; [reflexivity|].
  intros r Hr. unfold relevantRecords in Hr.
  apply filter_In in Hr as [Hin Hrel].
  specialize (Hnone r Hin). unfold countsFor in Hnone.
  rewrite Hrel in Hnone. exact Hnone.
Qed.

(** ** Properties of the engine *)

Lemma endsWith_refl s : endsWith s s.
Proof. exists []. reflexivity. Qed.

Lemma endsWith_app suffix p s : endsWith suffix s -> endsWith suffix (p ++ s).
Proof. intros [pre ->]. exists (p ++ pre). apply app_assoc. Qed.

Ltac ends_with :=
  repeat first [apply endsWith_refl | apply endsWith_app].

Section EngineFacts.
Variable config : Config.t.

Lemma getRecords_cache e st :
  recordsCache (snd (getRecords e st)) = Some (fst (getRecords e st)).
Proof.
  unfold getRecords, loadRecords.
  destruct (recordsCache st) eqn:Hc; simpl; [exact Hc|].
  destruct (io e), (recordsFile st); reflexivity.
Qed.

Lemma getRecords_frame e st :
  stockData (snd (getRecords e st)) = stockData st
  /\ saveTimer (snd (getRecords e st)) = saveTimer st
  /\ recordsTimer (snd (getRecords e st)) = recordsTimer st
  /\ itemsFile (snd (getRecords e st)) = itemsFile st
  /\ recordsFile (snd (getRecords e st)) = recordsFile st.
Proof.
  unfold getRecords, loadRecords.
  destruct st as [sd nid [cache|] stm rtm ifile rfile]; simpl; [tauto|].
  destruct (io e), rfile; simpl; tauto.
Qed.

Lemma getRanking_state e itemName type st :
  snd (getRanking e itemName type st) = st
  \/ snd (getRanking e itemName type st) = snd (getRecords e st).
Proof.
  unfold getRanking. destruct (stockData st !! itemName); [|left; reflexivity].
  right. destruct (getRecords e st). reflexivity.
Qed.

Lemma handleQuery_state template e itemName st :
  fst (handleQuery template e itemName st) = st
  \/ fst (handleQuery template e itemName st) = snd (getRecords e st).
Proof.
  unfold handleQuery. destruct (stockData st !! itemName); [|left; reflexivity].
  right. destruct (getRecords e st). reflexivity.
Qed.

(** What every mutating run of [handleOperation] does to the state, and the
    shape of its answer. *)
Lemma handleOperation_mutating e session op st item item' change actualOp :
  stockData st !! Operation.itemName op = Some item ->
  mutate op item = Some (item', change, actualOp) ->
  let st' := fst (handleOperation config e session op st) in
  let msg := snd (handleOperation config e session op st) in
  stockData st'
  = <[StockItem.name item' := item']>
      (<[Operation.itemName op := item']> (stockData st))
  /\ recordsCache st'
     = Some (fst (getRecords e st) ++ [appended e session op change st])
  /\ nextRecordId st' = nextRecordId (snd (getRecords e st)) + 1
  /\ saveTimer st' = Some (now e + 500)
  /\ recordsTimer st' = Some (now e + 500)
  /\ itemsFile st' = itemsFile st
  /\ recordsFile st' = recordsFile st
  /\ (exists rest,
        msg = Operation.itemName op ++ js " "
              ++ (if (actualOp =? PLUS)%N then js "+" else js "-") ++ rest)
  /\ endsWith
       (createGetCode config e (now e)
          (str_or (Session.userId session) (js "unknown"))
          (Operation.itemName op))
       msg.
Proof.
  intros Hitem Hmut st' msg. subst st' msg.
  unfold handleOperation. rewrite Hitem, Hmut.
  set (st1 := saveStockItem e item' _).
  assert (Hsd : stockData (addRecord e (newRecord e session op change) st1)
                = <[StockItem.name item' := item']>
                    (<[Operation.itemName op := item']> (stockData st))).
  { unfold addRecord.
    destruct (getRecords e st1) as [cache st1'] eqn:Hg.
    pose proof (getRecords_frame e st1) as (Hf & _).
    rewrite Hg in Hf. cbn [snd] in Hf. subst st1. exact Hf. }
  assert (Hg1 : fst (getRecords e st1) = fst (getRecords e st)
                /\ nextRecordId (snd (getRecords e st1))
                   = nextRecordId (snd (getRecords e st))).
  { unfold getRecords, loadRecords. subst st1.
    destruct st as [sd nid [cache|] stm rtm ifile rfile]; simpl; [tauto|].
    destruct (io e), rfile; simpl; tauto. }
  destruct Hg1 as [Hg1 Hg2].
  assert (Hrest :
    let st2 := addRecord e (newRecord e session op change) st1 in
    recordsCache st2
    = Some (fst (getRecords e st) ++ [appended e session op change st])
    /\ nextRecordId st2 = nextRecordId (snd (getRecords e st)) + 1
    /\ saveTimer st2 = Some (now e + 500)
    /\ recordsTimer st2 = Some (now e + 500)
    /\ itemsFile st2 = itemsFile st
    /\ recordsFile st2 = recordsFile st).
  { unfold addRecord, appended.
    pose proof (getRecords_frame e st1) as (_ & Hs & _ & Hi & Hr).
    destruct (getRecords e st1) as [cache st1'] eqn:Hg.
    cbn [fst snd] in *. subst cache. cbn -[getRecords].
    rewrite Hg2, Hs, Hi, Hr. subst st1. cbn -[getRecords]. tauto. }
  set (st2 := addRecord e (newRecord e session op change) st1) in *.
  destruct (Operation.noRank op); cbn [negb]; cbv iota.
  - cbn [fst snd]. repeat split; try apply Hrest; try exact Hsd.
    + eexists. rewrite <- app_assoc. reflexivity.
    + ends_with.
  - unfold getRanking.
    assert (Hl : is_Some (stockData st2 !! Operation.itemName op)).
    { rewrite Hsd.
      destruct (decide (StockItem.name item' = Operation.itemName op)) as [->|Hne].
      - rewrite lookup_insert_eq. eauto.
      - rewrite lookup_insert_ne by exact Hne. rewrite lookup_insert_eq. eauto. }
    destruct Hl as [it Hl]. rewrite Hl.
    assert (Hc : getRecords e st2
                 = (fst (getRecords e st) ++ [appended e session op change st], st2)).
    { unfold getRecords. destruct Hrest as [-> _]. reflexivity. }
    rewrite Hc. cbn [fst snd].
    repeat split; try apply Hrest; try exact Hsd.
    + eexists. rewrite <- app_assoc. reflexivity.
    + ends_with.
Qed.

Lemma lookup_after_save (m : gmap jsstring StockItem.t) k k' it :
  (<[k' := it]> (<[k := it]> m)) !! k = Some it.
Proof.
  destruct (decide (k' = k)) as [->|Hne].
  - apply lookup_insert_eq.
  - rewrite lookup_insert_ne by exact Hne. apply lookup_insert_eq.
Qed.

(** The state in which [handleOperation] asks for the ranking: the log it
    reads there ends with the entry just appended. *)
Lemma addRecord_after_save e session op change item' st :
  let st1 :=
    saveStockItem e item'
      (set_stockData (<[Operation.itemName op := item']> (stockData st)) st) in
  let st2 := addRecord e (newRecord e session op change) st1 in
  stockData st2
  = <[StockItem.name item' := item']>
      (<[Operation.itemName op := item']> (stockData st))
  /\ getRecords e st2
     = (fst (getRecords e st) ++ [appended e session op change st], st2).
Proof.
  intros st1 st2.
  assert (Hsd : stockData st2
                = <[StockItem.name item' := item']>
                    (<[Operation.itemName op := item']> (stockData st))).
  { subst st2. unfold addRecord.
    destruct (getRecords e st1) as [cache st1'] eqn:Hg.
    pose proof (getRecords_frame e st1) as (Hf & _).
    rewrite Hg in Hf. cbn [snd] in Hf. subst st1. exact Hf. }
  split; [exact Hsd|].
  assert (Hg1 : fst (getRecords e st1) = fst (getRecords e st)
                /\ nextRecordId (snd (getRecords e st1))
                   = nextRecordId (snd (getRecords e st))).
  { unfold getRecords, loadRecords. subst st1.
    destruct st as [sd nid [cache|] stm rtm ifile rfile]; simpl; [tauto|].
    destruct (io e), rfile; simpl; tauto. }
  destruct Hg1 as [Hg1 Hg2].
  assert (Hrc : recordsCache st2
                = Some (fst (getRecords e st)
                        ++ [appended e session op change st])).
  { subst st2. unfold addRecord, appended.
    destruct (getRecords e st1) as [cache st1'] eqn:Hg.
    cbn [fst snd] in *. subst cache. cbn -[getRecords].
    rewrite Hg2. reflexivity. }
  unfold getRecords. rewrite Hrc. reflexivity.
Qed.

(** The text a mutating run of [handleOperation] sends, in full. *)
Lemma handleOperation_message e session op st item item' change actualOp :
  stockData st !! Operation.itemName op = Some item ->
  mutate op item = Some (item', change, actualOp) ->
  let rankingType := if (actualOp =? PLUS)%N then add else consume in
  let getCode :=
    createGetCode config e (now e)
      (str_or (Session.userId session) (js "unknown"))
      (Operation.itemName op) in
  snd (handleOperation config e session op st)
  = if Operation.noRank op
    then
      Operation.itemName op ++ js " "
      ++ ((if (actualOp =? PLUS)%N then js "+" else js "-")
          ++ numToString (Z.abs change))
      ++ js "，当前库存：" ++ numToString (StockItem.count item')
      ++ js "瓶（不计入排行榜）" ++ NL ++ NL ++ getCode
    else
      Operation.itemName op ++ js " "
      ++ ((if (actualOp =? PLUS)%N then js "+" else js "-")
          ++ numToString (Z.abs change))
      ++ js "，当前库存：" ++ numToString (StockItem.count item')
      ++ js "瓶" ++ NL ++ NL ++ Operation.itemName op
      ++ (if (actualOp =? PLUS)%N then js "累计排行榜" else js "消耗排行榜")
      ++ js "：" ++ NL
      ++ renderRanking rankingType
           (rankingRows rankingType (Operation.itemName op)
              (fst (getRecords e st) ++ [appended e session op change st]))
      ++ NL ++ NL ++ getCode.
Proof.
  intros Hitem Hmut rankingType getCode. subst rankingType getCode.
  unfold handleOperation. rewrite Hitem, Hmut.
  destruct (addRecord_after_save e session op change item' st) as [Hsd Hg].
  cbv zeta in Hsd, Hg.
  set (st2 := addRecord e (newRecord e session op change) _) in *.
  destruct (Operation.noRank op); cbn [negb]; cbv iota; [reflexivity|].
  unfold getRanking.
  assert (Hl : is_Some (stockData st2 !! Operation.itemName op)).
  { rewrite Hsd, lookup_after_save. eauto. }
  destruct Hl as [it Hl]. rewrite Hl, Hg. reflexivity.
Qed.

(** The three arithmetic branches of [handleOperation]. *)
Lemma mutate_plus op item :
  Operation.operation op = PLUS ->
  exists item',
    mutate op item = Some (item', Operation.value op, PLUS)
    /\ StockItem.count item' = StockItem.count item + Operation.value op
    /\ StockItem.totalAdded item'
       = (if Operation.noRank op then StockItem.totalAdded item
          else StockItem.totalAdded item + Operation.value op)
    /\ StockItem.totalConsumed item' = StockItem.totalConsumed item.
Proof.
  intros Hop. unfold mutate. rewrite Hop.
  change (PLUS =? PLUS)%N with true. cbv iota.
  eexists; split; [reflexivity|].
  destruct (Operation.noRank op); simpl; auto.
Qed.

Lemma mutate_minus op item :
  Operation.operation op = MINUS ->
  exists item',
    mutate op item = Some (item', - Operation.value op, MINUS)
    /\ StockItem.count item'
       = Z.max 0 (StockItem.count item - Operation.value op)
    /\ StockItem.totalAdded item' = StockItem.totalAdded item
    /\ StockItem.totalConsumed item'
       = (if Operation.noRank op then StockItem.totalConsumed item
          else StockItem.totalConsumed item + Operation.value op).
Proof.
  intros Hop. unfold mutate. rewrite Hop.
  change (MINUS =? PLUS)%N with false.
  change (MINUS =? MINUS)%N with true. cbv iota.
  eexists; split; [reflexivity|].
  destruct (Operation.noRank op); simpl;
    destruct (Z.ltb_spec (StockItem.count item - Operation.value op) 0);
    simpl; repeat split; lia.
Qed.

Lemma mutate_equals op item :
  Operation.operation op = EQUALS ->
  let diff := Operation.value op - StockItem.count item in
  (diff = 0 -> mutate op item = None)
  /\ (0 < diff ->
      exists item',
        mutate op item = Some (item', diff, PLUS)
        /\ StockItem.count item' = Operation.value op
        /\ StockItem.totalAdded item'
           = (if Operation.noRank op then StockItem.totalAdded item
              else StockItem.totalAdded item + diff)
        /\ StockItem.totalConsumed item' = StockItem.totalConsumed item)
  /\ (diff < 0 ->
      exists item',
        mutate op item = Some (item', diff, MINUS)
        /\ StockItem.count item' = Operation.value op
        /\ StockItem.totalAdded item' = StockItem.totalAdded item
        /\ StockItem.totalConsumed item'
           = (if Operation.noRank op then StockItem.totalConsumed item
              else StockItem.totalConsumed item + Z.abs diff)).
Proof.
  intros Hop diff. unfold mutate. rewrite Hop.
  change (EQUALS =? PLUS)%N with false.
  change (EQUALS =? MINUS)%N with false.
  change (EQUALS =? EQUALS)%N with true. cbv iota. fold diff.
  destruct (Z.ltb_spec 0 diff), (Z.ltb_spec diff 0);
    repeat split; intros; try lia; try reflexivity;
    eexists; (split; [reflexivity|]);
    destruct (Operation.noRank op); simpl; auto.
Qed.

(** The history entry of a mutation carries its item, change and
    ranking flag. *)
Lemma appended_fields e session op change st :
  StockRecord.change (appended e session op change st) = change
  /\ StockRecord.itemName (appended e session op change st)
     = Operation.itemName op
  /\ StockRecord.isRanked (appended e session op change st)
     = negb (Operation.noRank op)
  /\ StockRecord.timestamp (appended e session op change st) = now e.
Proof. repeat split. Qed.

(** C1. A decrease of magnitude [value op] leaves the count at
    [max 0 (count - value)], hence never below zero; unless the
    operation is excluded from the ranking, [totalConsumed] grows by the
    full requested magnitude, and the history entry appended to the log
    carries the change [- value], whether or not the count was
    clamped. *)
Theorem decrease_clamps_count_and_logs_request e session op st item :
  stockData st !! Operation.itemName op = Some item ->
  Operation.operation op = MINUS ->
  let st' := fst (handleOperation config e session op st) in
  exists item',
    stockData st' !! Operation.itemName op = Some item'
    /\ StockItem.count item'
       = Z.max 0 (StockItem.count item - Operation.value op)
    /\ 0 <= StockItem.count item'
    /\ (Operation.noRank op = false ->
        StockItem.totalConsumed item'
        = StockItem.totalConsumed item + Operation.value op)
    /\ exists r,
         recordsCache st' = Some (fst (getRecords e st) ++ [r])
         /\ StockRecord.itemName r = Operation.itemName op
         /\ StockRecord.change r = - Operation.value op
         /\ StockRecord.isRanked r = negb (Operation.noRank op).
Proof.
  intros Hitem Hop st'.
  destruct (mutate_minus op item Hop) as (item' & Hmut & Hc & _ & Htc).
  destruct (handleOperation_mutating e session op st _ _ _ _ Hitem Hmut)
    as (Hsd & Hrc & _).
  exists item'. subst st'. rewrite Hsd, Hrc, Hc.
  split; [apply lookup_after_save|].
  split; [reflexivity|]. split; [lia|].
  split; [intros Hr; rewrite Htc, Hr; reflexivity|].
  eexists; split; [reflexivity|]. repeat split.
Qed.

(** C3. A set to [value op] on an item whose count differs from it
    ([diff = value - count], not zero) leaves the count at [value]; a
    positive [diff] is added to [totalAdded], the absolute value of a
    negative [diff] to [totalConsumed], in both cases only when the
    operation is not excluded from the ranking; the history entry carries
    the change [diff]. *)
Theorem set_applies_signed_difference e session op st item :
  stockData st !! Operation.itemName op = Some item ->
  Operation.operation op = EQUALS ->
  let diff := Operation.value op - StockItem.count item in
  diff <> 0 ->
  let st' := fst (handleOperation config e session op st) in
  exists item',
    stockData st' !! Operation.itemName op = Some item'
    /\ StockItem.count item' = Operation.value op
    /\ (0 < diff ->
        StockItem.totalAdded item'
        = (if Operation.noRank op then StockItem.totalAdded item
           else StockItem.totalAdded item + diff)
        /\ StockItem.totalConsumed item' = StockItem.totalConsumed item)
    /\ (diff < 0 ->
        StockItem.totalConsumed item'
        = (if Operation.noRank op then StockItem.totalConsumed item
           else StockItem.totalConsumed item + Z.abs diff)
        /\ StockItem.totalAdded item' = StockItem.totalAdded item)
    /\ exists r,
         recordsCache st' = Some (fst (getRecords e st) ++ [r])
         /\ StockRecord.itemName r = Operation.itemName op
         /\ StockRecord.change r = diff
         /\ StockRecord.isRanked r = negb (Operation.noRank op).
Proof.
  intros Hitem Hop diff Hne st'.
  destruct (mutate_equals op item Hop) as (_ & Hpos & Hneg).
  fold diff in Hpos, Hneg.
  assert (Hcase : 0 < diff \/ diff < 0) by lia.
  destruct Hcase as [Hd|Hd].
  - destruct (Hpos Hd) as (item' & Hmut & Hc & Hta & Htc).
    destruct (handleOperation_mutating e session op st _ _ _ _ Hitem Hmut)
      as (Hsd & Hrc & _).
    exists item'. subst st'. rewrite Hsd, Hrc.
    split; [apply lookup_after_save|]. split; [exact Hc|].
    split; [intros _; split; assumption|]. split; [intros; lia|].
    eexists; split; [reflexivity|]. repeat split.
  - destruct (Hneg Hd) as (item' & Hmut & Hc & Hta & Htc).
    destruct (handleOperation_mutating e session op st _ _ _ _ Hitem Hmut)
      as (Hsd & Hrc & _).
    exists item'. subst st'. rewrite Hsd, Hrc.
    split; [apply lookup_after_save|]. split; [exact Hc|].
    split; [intros; lia|]. split; [intros _; split; assumption|].
    eexists; split; [reflexivity|]. repeat split.
Qed.

Lemma unchanged_text_head :
  exists t, js " 库存未变化，当前库存：" = 32%N :: 0x5e93%N :: t.
Proof. vm_compute. eexists. reflexivity. Qed.

Lemma success_text_head (actualOp : code_unit) rest :
  exists c t,
    js " " ++ (if (actualOp =? PLUS)%N then js "+" else js "-") ++ rest
    = 32%N :: c :: t
    /\ (c = PLUS \/ c = MINUS).
Proof.
  destruct (actualOp =? PLUS)%N; do 2 eexists;
    (split; [reflexivity|]); [left|right]; reflexivity.
Qed.

(** C4. A set to the value the count already has changes nothing: the
    state after [handleOperation] is the state before it (so no history
    entry, the same counters, and no timer armed), and the answer is the
    "unchanged" text, which no mutating operation on that item ever
    answers. *)
Theorem set_to_current_count_is_noop e session op st item :
  stockData st !! Operation.itemName op = Some item ->
  Operation.operation op = EQUALS ->
  Operation.value op = StockItem.count item ->
  let st' := fst (handleOperation config e session op st) in
  let msg := snd (handleOperation config e session op st) in
  st' = st
  /\ recordsCache st' = recordsCache st
  /\ stockData st' !! Operation.itemName op = Some item
  /\ saveTimer st' = saveTimer st
  /\ recordsTimer st' = recordsTimer st
  /\ msg = Operation.itemName op ++ js " 库存未变化，当前库存："
           ++ numToString (StockItem.count item) ++ js "瓶"
  /\ forall e2 session2 op2 st2 item2 result,
       Operation.itemName op2 = Operation.itemName op ->
       stockData st2 !! Operation.itemName op2 = Some item2 ->
       mutate op2 item2 = Some result ->
       snd (handleOperation config e2 session2 op2 st2) <> msg.
Proof.
  intros Hitem Hop Hval st' msg.
  destruct (mutate_equals op item Hop) as (Hzero & _).
  assert (Hmut : mutate op item = None) by (apply Hzero; lia).
  assert (Hrun : handleOperation config e session op st
                 = (st, Operation.itemName op ++ js " 库存未变化，当前库存："
                        ++ numToString (StockItem.count item) ++ js "瓶")).
  { unfold handleOperation. rewrite Hitem, Hmut. reflexivity. }
  subst st' msg. rewrite Hrun. cbn [fst snd].
  repeat split; try assumption.
  intros e2 session2 op2 st2 item2 [[item2' change2] actualOp2] Hname Hitem2 Hmut2.
  destruct (handleOperation_mutating e2 session2 op2 st2 _ _ _ _ Hitem2 Hmut2)
    as (_ & _ & _ & _ & _ & _ & _ & (rest & Hmsg) & _).
  rewrite Hmsg, Hname. intros Heq. apply app_inv_head in Heq.
  destruct (success_text_head actualOp2 rest) as (c & t & Hs & Hc).
  destruct unchanged_text_head as (t' & Hu).
  rewrite Hs, Hu in Heq. cbn [app] in Heq.
  injection Heq as Heq _. destruct Hc as [-> | ->]; discriminate Heq.
Qed.

(** C10, as the code has it. An increase or a decrease by 0 is carried
    out like any other. [totalAdded] and [totalConsumed] keep their
    values; the count is kept by an increase and set to [max 0 count] by a
    decrease, which keeps a count of 0 or more and lifts a negative one to
    0. A history entry with change 0 and the ranking flag of the operation
    is appended, both timers are armed, and the answer is the success text
    with [+0] or [-0], the ranking unless the operation is excluded from
    it, and the verification code; it is never the "unchanged" text. *)
Theorem zero_magnitude_is_recorded e session op st item :
  stockData st !! Operation.itemName op = Some item ->
  Operation.operation op = PLUS \/ Operation.operation op = MINUS ->
  Operation.value op = 0 ->
  let st' := fst (handleOperation config e session op st) in
  let msg := snd (handleOperation config e session op st) in
  let isPlus := (Operation.operation op =? PLUS)%N in
  let rankingType := if isPlus then add else consume in
  let r := appended e session op 0 st in
  let getCode :=
    str_or
      (stripColon (trim (str_or (Config.getCodeTag config) (js "wmc_ref"))))
      (js "wmc_ref")
    ++ js ": " ++ numToString (now e) ++ js "_"
    ++ str_or (Session.userId session) (js "unknown") ++ js "_"
    ++ Operation.itemName op ++ js "_" ++ rand6 e in
  (exists item',
     stockData st' !! Operation.itemName op = Some item'
     /\ StockItem.count item'
        = (if isPlus then StockItem.count item
           else Z.max 0 (StockItem.count item))
     /\ (0 <= StockItem.count item ->
         StockItem.count item' = StockItem.count item)
     /\ StockItem.totalAdded item' = StockItem.totalAdded item
     /\ StockItem.totalConsumed item' = StockItem.totalConsumed item
     /\ msg
        = if Operation.noRank op
          then
            Operation.itemName op ++ js " "
            ++ (if isPlus then js "+0" else js "-0")
            ++ js "，当前库存：" ++ numToString (StockItem.count item')
            ++ js "瓶（不计入排行榜）" ++ NL ++ NL ++ getCode
          else
            Operation.itemName op ++ js " "
            ++ (if isPlus then js "+0" else js "-0")
            ++ js "，当前库存：" ++ numToString (StockItem.count item')
            ++ js "瓶" ++ NL ++ NL ++ Operation.itemName op
            ++ (if isPlus then js "累计排行榜" else js "消耗排行榜")
            ++ js "：" ++ NL
            ++ renderRanking rankingType
                 (rankingRows rankingType (Operation.itemName op)
                    (fst (getRecords e st) ++ [r]))
            ++ NL ++ NL ++ getCode)
  /\ recordsCache st' = Some (fst (getRecords e st) ++ [r])
  /\ StockRecord.itemName r = Operation.itemName op
  /\ StockRecord.change r = 0
  /\ StockRecord.isRanked r = negb (Operation.noRank op)
  /\ StockRecord.timestamp r = now e
  /\ saveTimer st' = Some (now e + 500)
  /\ recordsTimer st' = Some (now e + 500)
  /\ msg <> Operation.itemName op ++ js " 库存未变化，当前库存："
            ++ numToString (StockItem.count item) ++ js "瓶".
Proof.
  intros Hitem Hop Hval st' msg isPlus rankingType r getCode.
  assert (Hmut : exists item',
             mutate op item = Some (item', 0, Operation.operation op)
             /\ StockItem.count item'
                = (if isPlus then StockItem.count item
                   else Z.max 0 (StockItem.count item))
             /\ StockItem.totalAdded item' = StockItem.totalAdded item
             /\ StockItem.totalConsumed item' = StockItem.totalConsumed item).
  { subst isPlus. destruct Hop as [Hop|Hop]; rewrite Hop.
    - destruct (mutate_plus op item Hop) as (item' & Hm & Hc & Hta & Htc).
      rewrite Hval in Hm. exists item'. split; [exact Hm|].
      change (PLUS =? PLUS)%N with true. cbv iota.
      repeat split; try assumption; try lia.
      rewrite Hta. destruct (Operation.noRank op); lia.
    - destruct (mutate_minus op item Hop) as (item' & Hm & Hc & Hta & Htc).
      rewrite Hval in Hm. change (- 0) with 0 in Hm.
      exists item'. split; [exact Hm|].
      change (MINUS =? PLUS)%N with false. cbv iota.
      repeat split; try assumption.
      + rewrite Hc, Hval, Z.sub_0_r. reflexivity.
      + rewrite Htc. destruct (Operation.noRank op); lia. }
  destruct Hmut as (item' & Hmut & Hc & Hta & Htc).
  destruct (handleOperation_mutating e session op st _ _ _ _ Hitem Hmut)
    as (Hsd & Hrc & _ & Hst & Hrt & _ & _ & (rest & Hrest) & _).
  pose proof (handleOperation_message e session op st _ _ _ _ Hitem Hmut)
    as Hmsg.
  cbv zeta in Hmsg. subst st' msg.
  split.
  { exists item'. rewrite Hsd. split; [apply lookup_after_save|].
    split; [exact Hc|].
    split; [intros Hpos; rewrite Hc; destruct isPlus; lia|].
    split; [exact Hta|]. split; [exact Htc|].
    rewrite Hmsg. subst isPlus rankingType getCode r. unfold createGetCode.
    destruct (Operation.noRank op), (Operation.operation op =? PLUS)%N;
      reflexivity. }
  split; [exact Hrc|].
  split; [reflexivity|]. split; [reflexivity|]. split; [reflexivity|].
  split; [reflexivity|]. split; [exact Hst|]. split; [exact Hrt|].
  rewrite Hrest. intros Heq. apply app_inv_head in Heq.
  destruct (success_text_head (Operation.operation op) rest)
    as (c & t & Hs & Hcc).
  destruct unchanged_text_head as (t' & Hu).
  rewrite Hs, Hu in Heq. cbn [app] in Heq.
  injection Heq as Heq _. destruct Hcc as [-> | ->]; discriminate Heq.
Qed.

End EngineFacts.

(** ** Properties of the history log *)

Section HistoryFacts.
Variable toLowerCase : jsstring -> jsstring.
Variable config : Config.t.
Variable canonicalize : code_unit -> code_unit.

Lemma onMessage_cases e session st :
  onMessage toLowerCase config canonicalize e session st = (st, None)
  \/ (exists op,
        parseOperation toLowerCase config (trim (Session.content session))
        = Some op
        /\ onMessage toLowerCase config canonicalize e session st
           = (fst (handleOperation config e session op st),
              Some (snd (handleOperation config e session op st))))
  \/ (exists itemName,
        parseOperation toLowerCase config (trim (Session.content session))
        = None
        /\ isQueryMessage toLowerCase config canonicalize
             (Config.queryMessages config) (trim (Session.content session))
           = QueryItem itemName
        /\ onMessage toLowerCase config canonicalize e session st
           = handleQuery (Config.defaultQueryMessage config) e itemName st).
Proof.
  unfold onMessage.
  destruct (_ || _); [left; reflexivity|].
  destruct (negb _); [left; reflexivity|].
  destruct (trim (Session.content session)) as [|c text] eqn:Ht;
    [left; reflexivity|].
  destruct (parseOperation toLowerCase config (c :: text)) as [op|] eqn:Hop.
  - right; left. exists op. split; [reflexivity|].
    destruct (handleOperation config e session op st). reflexivity.
  - destruct (isQueryMessage _ _ _ _ _) as [| itemName | |] eqn:Hq;
      try (left; reflexivity).
    right; right. exists itemName. auto.
Qed.

Lemma stockSet_cases e session item count st :
  fst (stockSet toLowerCase config e session item count st) = st
  \/ exists itemName stockItem c,
       count = Some c
       /\ getItemName toLowerCase config item = Some itemName
       /\ stockData st !! itemName = Some stockItem
       /\ fst (stockSet toLowerCase config e session item count st)
          = saveStockItem e (with_count c stockItem)
              (set_stockData
                 (<[itemName := with_count c stockItem]> (stockData st)) st).
Proof.
  unfold stockSet.
  destruct (bool_decide _); [left; reflexivity|].
  destruct (negb _); [left; reflexivity|].
  destruct (bool_decide _); [left; reflexivity|].
  destruct count as [c|]; [|left; reflexivity].
  destruct (getItemName toLowerCase config item) as [itemName|] eqn:Hn;
    [|left; reflexivity].
  destruct (stockData st !! itemName) as [stockItem|] eqn:Hl;
    [|left; reflexivity].
  right. exists itemName, stockItem, c. auto.
Qed.

Lemma rankCommand_state e session item type st :
  fst (rankCommand toLowerCase config e session item type st) = st
  \/ fst (rankCommand toLowerCase config e session item type st)
     = snd (getRecords e st).
Proof.
  unfold rankCommand.
  destruct (bool_decide _); [left; reflexivity|].
  destruct (negb _); [left; reflexivity|].
  destruct (bool_decide _); [left; reflexivity|].
  destruct (getItemName toLowerCase config item) as [itemName|];
    [|left; reflexivity].
  destruct (bool_decide _).
  { pose proof (getRanking_state e itemName consume st) as H.
    destruct (getRanking e itemName consume st). exact H. }
  destruct (bool_decide _); [|left; reflexivity].
  pose proof (getRanking_state e itemName add st) as H.
  destruct (getRanking e itemName add st). exact H.
Qed.

(** The events that only make a report leave the state as it is or as
    [getRecords] leaves it. *)
Lemma step_cases ev st :
  fst (step toLowerCase config canonicalize ev st) = st
  \/ (exists e,
        fst (step toLowerCase config canonicalize ev st)
        = snd (getRecords e st))
  \/ (exists e session op,
        ev = EvMessage e session
        /\ parseOperation toLowerCase config (trim (Session.content session))
           = Some op
        /\ fst (step toLowerCase config canonicalize ev st)
           = fst (handleOperation config e session op st))
  \/ (exists e session item itemName stockItem c,
        ev = EvStockSet e session item (Some c)
        /\ getItemName toLowerCase config item = Some itemName
        /\ stockData st !! itemName = Some stockItem
        /\ fst (step toLowerCase config canonicalize ev st)
           = saveStockItem e (with_count c stockItem)
               (set_stockData
                  (<[itemName := with_count c stockItem]> (stockData st)) st))
  \/ (exists o,
        ev = EvSaveTimer o
        /\ fst (step toLowerCase config canonicalize ev st)
           = fireSaveTimer o st)
  \/ (exists o,
        ev = EvRecordsTimer o
        /\ fst (step toLowerCase config canonicalize ev st)
           = fireRecordsTimer o st).
Proof.
  destruct ev as [e session|e session item count|e session item type|o|o];
    cbn [step fst].
  - destruct (onMessage_cases e session st)
      as [-> | [(op & Hop & ->) | (itemName & _ & _ & ->)]].
    + left. reflexivity.
    + right; right; left. exists e, session, op. auto.
    + destruct (handleQuery_state (Config.defaultQueryMessage config) e
                  itemName st) as [H|H]; [left; exact H|].
      right; left. exists e. exact H.
  - destruct (stockSet_cases e session item count st)
      as [-> | (itemName & stockItem & c & -> & Hn & Hl & ->)];
      [left; reflexivity|].
    right; right; right; left.
    exists e, session, item, itemName, stockItem, c. auto.
  - destruct (rankCommand_state e session item type st) as [H|H];
      [left; exact H|].
    right; left. exists e. exact H.
  - right; right; right; right; left. exists o. auto.
  - right; right; right; right; right. exists o. auto.
Qed.

Lemma handleOperation_recordsFile e session op st :
  recordsFile (fst (handleOperation config e session op st)) = recordsFile st.
Proof.
  destruct (stockData st !! Operation.itemName op) as [item|] eqn:Hitem.
  - destruct (mutate op item) as [[[item' change] actualOp]|] eqn:Hmut.
    + destruct (handleOperation_mutating config e session op st _ _ _ _ Hitem Hmut)
        as (_ & _ & _ & _ & _ & _ & Hr & _). exact Hr.
    + unfold handleOperation. rewrite Hitem, Hmut. reflexivity.
  - unfold handleOperation. rewrite Hitem. reflexivity.
Qed.

Lemma recentRecords_length sorted : (length (recentRecords sorted) <= 100)%nat.
Proof.
  unfold recentRecords. rewrite length_rev, length_take. lia.
Qed.

Lemma step_recordsFile ev st :
  recordsFile (fst (step toLowerCase config canonicalize ev st)) = recordsFile st
  \/ (length (recordsFile (fst (step toLowerCase config canonicalize ev st))) <= 100)%nat.
Proof.
  destruct (step_cases ev st)
    as [-> | [[e ->] | [(e & session & op & _ & _ & ->)
       | [(e & session & item & itemName & stockItem & c & _ & _ & _ & ->)
       | [(o & _ & ->) | (o & _ & ->)]]]]].
  - left. reflexivity.
  - left. apply getRecords_frame.
  - left. apply handleOperation_recordsFile.
  - left. reflexivity.
  - left. destruct o; reflexivity.
  - unfold fireRecordsTimer. destruct (recordsCache st) as [cache|];
      [|left; reflexivity].
    destruct o; [right|left; reflexivity|left; reflexivity|right];
      apply recentRecords_length.
Qed.

Lemma sortRecords_perm cache : sortRecords cache ≡ₚ cache.
Proof. apply js_sort_perm. Qed.

Lemma sortRecords_descending cache :
  descending StockRecord.timestamp (sortRecords cache).
Proof. apply (js_sort_descending StockRecord.timestamp). Qed.

(** C6, as the code has it. Whatever happens to the process, the
    records file is either the one it started with or holds at most 100
    entries. Each write of the history puts there the entries of the
    in-memory log with the largest timestamps, 100 of them or all when
    there are fewer, in ascending order of timestamp: exactly the entries
    beyond the first 100 are left out, and each of them is no newer than
    any entry written. The in-memory log keeps all its entries; the write
    leaves it sorted newest first, and the file is the reverse of its first
    100 entries. *)
Theorem history_file_keeps_newest_hundred :
  (forall evs st,
      recordsFile (run toLowerCase config canonicalize evs st) = recordsFile st
      \/ (length (recordsFile (run toLowerCase config canonicalize evs st))
          <= 100)%nat)
  /\ (forall st cache,
        recordsCache st = Some cache ->
        let st' := fireRecordsTimer IoOk st in
        length (recordsFile st') = Nat.min 100 (length cache)
        /\ ascending StockRecord.timestamp (recordsFile st')
        /\ (exists evicted,
              cache ≡ₚ evicted ++ recordsFile st'
              /\ length evicted = (length cache - 100)%nat
              /\ forall a b,
                   a ∈ evicted -> b ∈ recordsFile st' ->
                   StockRecord.timestamp a <= StockRecord.timestamp b)
        /\ exists cache',
             recordsCache st' = Some cache'
             /\ cache' ≡ₚ cache /\ length cache' = length cache
             /\ descending StockRecord.timestamp cache'
             /\ recordsFile st' = rev (take 100 cache')).
Proof.
  split.
  - intros evs. induction evs as [|ev evs IH]; intros st; [left; reflexivity|].
    change (run toLowerCase config canonicalize (ev :: evs) st)
      with (run toLowerCase config canonicalize evs
              (fst (step toLowerCase config canonicalize ev st))).
    destruct (IH (fst (step toLowerCase config canonicalize ev st)))
      as [Heq|Hle];
      [rewrite Heq; apply step_recordsFile|right; exact Hle].
  - intros st cache Hc st'. subst st'. unfold fireRecordsTimer. rewrite Hc.
    cbn [recordsFile recordsCache set_recordsTimer set_recordsFile
           set_recordsCache].
    pose proof (sortRecords_descending cache) as Hd.
    pose proof (Permutation_length (sortRecords_perm cache)) as Hlen.
    destruct (descending_take StockRecord.timestamp 100 _ Hd) as [Ht Hcut].
    split.
    { unfold recentRecords. rewrite length_rev, length_take, Hlen. lia. }
    split; [apply descending_rev; exact Ht|].
    split.
    + exists (drop 100 (sortRecords cache)). split; [|split].
      * unfold recentRecords.
        rewrite <- (sortRecords_perm cache) at 1.
        rewrite <- (take_drop 100 (sortRecords cache)) at 1.
        rewrite Permutation_app_comm.
        apply Permutation_app_head, Permutation_rev.
      * rewrite length_drop, Hlen. reflexivity.
      * intros a b Ha Hb. apply (Hcut b a); [|exact Ha].
        unfold recentRecords in Hb.
        apply list_elem_of_In, in_rev, list_elem_of_In in Hb. exact Hb.
    + exists (sortRecords cache). split; [reflexivity|].
      split; [apply sortRecords_perm|].
      split; [exact Hlen|]. split; [exact Hd|reflexivity].
Qed.

End HistoryFacts.

(** ** The engine on concrete inputs *)

(** [water-10] on a count of 2: the count stops at 0 and [totalConsumed]
    goes from 3 to 13. *)
Lemma decrease_clamps_at_zero :
  exists item',
    stockData
      (fst (handleOperation defaultConfig (demoEnv 3000)
              (demoSession "water-10")
              (Operation.mk waterName MINUS 10 false) stockOfTwo))
    !! waterName = Some item'
    /\ StockItem.count item' = 0
    /\ StockItem.totalConsumed item' = 13.
Proof.
  destruct (decrease_clamps_count_and_logs_request defaultConfig
              (demoEnv 3000) (demoSession "water-10")
              (Operation.mk waterName MINUS 10 false) stockOfTwo
              (waterItem 2 5 3))
    as (item' & Hl & Hc & _ & Htc & _).
  - vm_compute. reflexivity.
  - reflexivity.
  - exists item'. split; [exact Hl|]. split; [exact Hc|].
    exact (Htc eq_refl).
Defined.

(** [water=7-r] on a count of 2: the count is 7 and [totalAdded] stays at
    5. *)
Lemma set_unranked_from_two_to_seven :
  exists item',
    stockData
      (fst (handleOperation defaultConfig (demoEnv 3000)
              (demoSession "water=7-r")
              (Operation.mk waterName EQUALS 7 true) stockOfTwo))
    !! waterName = Some item'
    /\ StockItem.count item' = 7
    /\ StockItem.totalAdded item' = 5.
Proof.
  destruct (set_applies_signed_difference defaultConfig
              (demoEnv 3000) (demoSession "water=7-r")
              (Operation.mk waterName EQUALS 7 true) stockOfTwo
              (waterItem 2 5 3))
    as (item' & Hl & Hc & Hpos & _).
  - vm_compute. reflexivity.
  - reflexivity.
  - discriminate.
  - exists item'. split; [exact Hl|]. split; [exact Hc|].
    exact (proj1 (Hpos eq_refl)).
Defined.

(** [water=2] on a count of 2 leaves the state as it is. *)
Lemma set_two_on_two_changes_nothing :
  fst (handleOperation defaultConfig (demoEnv 3000) (demoSession "water=2")
         (Operation.mk waterName EQUALS 2 false) stockOfTwo)
  = stockOfTwo.
Proof.
  apply (set_to_current_count_is_noop defaultConfig (demoEnv 3000)
           (demoSession "water=2") (Operation.mk waterName EQUALS 2 false)
           stockOfTwo (waterItem 2 5 3)).
  - vm_compute. reflexivity.
  - reflexivity.
  - reflexivity.
Defined.

(** [water-0] on a count of 2 keeps the count and appends a ranked entry
    with change 0. *)
Lemma decrease_by_zero_is_logged :
  (exists item',
     stockData
       (fst (handleOperation defaultConfig (demoEnv 3000)
               (demoSession "water-0")
               (Operation.mk waterName MINUS 0 false) stockOfTwo))
     !! waterName = Some item'
     /\ StockItem.count item' = 2)
  /\ recordsCache
       (fst (handleOperation defaultConfig (demoEnv 3000)
               (demoSession "water-0")
               (Operation.mk waterName MINUS 0 false) stockOfTwo))
     = Some (fst (getRecords (demoEnv 3000) stockOfTwo)
             ++ [StockRecord.mk 3 waterName (js "10001") (js "Alice") 0 3000
                   true]).
Proof.
  destruct (zero_magnitude_is_recorded defaultConfig (demoEnv 3000)
              (demoSession "water-0")
              (Operation.mk waterName MINUS 0 false) stockOfTwo
              (waterItem 2 5 3))
    as ((item' & Hl & _ & Hc & _) & Hr & _).
  - vm_compute. reflexivity.
  - right. reflexivity.
  - reflexivity.
  - split; [exists item'; split; [exact Hl|apply Hc; discriminate]|].
    exact Hr.
Defined.

(** After [stock.set water -5], [water-0] changes the count from -5 to 0:
    a decrease by 0 does not leave every count as it is. *)
Lemma zero_decrease_lifts_negative_count :
  let st := fst (step asciiLower defaultConfig asciiUpper setNegative
                   freshState) in
  Reachable asciiLower defaultConfig asciiUpper st
  /\ stockData st !! waterName = Some (waterItem (-5) 0 0)
  /\ parseOperation asciiLower defaultConfig (js "water-0")
     = Some (Operation.mk waterName MINUS 0 false)
  /\ stockData
       (fst (step asciiLower defaultConfig asciiUpper
               (EvMessage (demoEnv 2000) (demoSession "water-0")) st))
     !! waterName = Some (waterItem 0 0 0).
Proof.
  split; [exists IoOk, IoOk, None, [], [setNegative]; reflexivity|].
  repeat split; vm_compute; reflexivity.
Qed.

(** Writing a log of 101 entries: 100 of them reach the file, and the one
    left out is no newer than any of them. *)
Lemma history_write_evicts_oldest :
  length (recordsFile (fireRecordsTimer IoOk beforeWrite)) = 100%nat
  /\ exists evicted,
       length evicted = 1%nat
       /\ logOfHundredAndOne
          ≡ₚ evicted ++ recordsFile (fireRecordsTimer IoOk beforeWrite)
       /\ forall a b,
            a ∈ evicted ->
            b ∈ recordsFile (fireRecordsTimer IoOk beforeWrite) ->
            StockRecord.timestamp a <= StockRecord.timestamp b.
Proof.
  destruct (proj2 (history_file_keeps_newest_hundred asciiLower defaultConfig
                     asciiUpper)
              beforeWrite logOfHundredAndOne)
    as (Hlen & _ & (evicted & Hperm & Hev & Hold) & _).
  - vm_compute. reflexivity.
  - split; [exact Hlen|]. exists evicted. split; [exact Hev|].
    split; [exact Hperm|exact Hold].
Defined.

(** Eleven users give ten rows; after [water+5] and [water-3] the
    consumption ranking of the item has the one row of the 3 consumed; a
    log of increases has no consumption ranking. *)
Lemma ranking_of_eleven_users :
  length (rankingRows add waterName elevenUsers) = 10%nat
  /\ getRanking (demoEnv 3000) waterName consume stockOfTwo
     = (js "1. Alice: 3瓶", stockOfTwo)
  /\ renderRanking consume (rankingRows consume waterName renameLog)
     = js "暂无消耗记录".
Proof.
  split; [|split].
  - destruct (ranking_sums_per_user_first_name add waterName elevenUsers)
      as (_ & _ & _ & _ & Hlen & _).
    rewrite Hlen. vm_compute. reflexivity.
  - destruct (ranking_sums_per_user_first_name consume waterName
                [StockRecord.mk 1 waterName (js "10001") (js "Alice") 5 1000
                   true;
                 StockRecord.mk 2 waterName (js "10001") (js "Alice") (-3)
                   2000 true])
      as (_ & _ & _ & _ & _ & _ & _ & Hget & _).
    rewrite (Hget (demoEnv 3000) stockOfTwo (waterItem 2 5 3));
      vm_compute; reflexivity.
  - apply (ranking_sums_per_user_first_name consume waterName renameLog).
    intros r [<- | [<- | []]]; reflexivity.
Defined.

(** The in-memory log after 101 mutations and a successful write holds 101
    entries: the bound of 100 is not one on the log that the ranking
    scans. *)
Lemma history_cache_not_capped :
  ~ (forall st cache,
        Reachable asciiLower defaultConfig asciiUpper st ->
        recordsCache st = Some cache -> (length cache <= 100)%nat).
Proof.
  intros H.
  assert (E : option_map length (recordsCache afterHundredAndOne)
              = Some 101%nat) by (vm_compute; reflexivity).
  destruct (recordsCache afterHundredAndOne) as [cache|] eqn:Hc;
    [|discriminate].
  injection E as E.
  assert (Hr : Reachable asciiLower defaultConfig asciiUpper afterHundredAndOne)
    by (exists IoOk, IoOk, None, [], hundredAndOne; reflexivity).
  specialize (H afterHundredAndOne cache Hr Hc). lia.
Qed.

(** The name shown for a user is the one of the first counted entry of the
    log, not of the latest appended: on a log in order of arrival it is the
    older name, and only once a history write has sorted the log is it the
    newer one. For a name that is not in the item table the answer is the
    empty string. *)
Lemma ranking_shows_first_name :
  rankingRows add waterName renameLog = [(js "Old", 3)]
  /\ specRankingRows add waterName renameLog = [(js "New", 3)]
  /\ rankingRows add waterName renameLog
     <> specRankingRows add waterName renameLog
  /\ rankingRows add waterName (sortRecords renameLog) = [(js "New", 3)]
  /\ fst (getRanking (demoEnv 0) (js "tea") consume freshState) = [].
Proof.
  split; [vm_compute; reflexivity|].
  split; [vm_compute; reflexivity|].
  split; [vm_compute; discriminate|].
  split; vm_compute; reflexivity.
Qed.

(** ** Where the code departs from its own intent *)

(** [\b-r\b] only matches right after a word character: the hyphen is not
    one, so the boundary in front of it needs one before it. *)
Lemma dashRAt_needs_word_before before s :
  dashRAt before s = true -> optWordChar before = true.
Proof.
  destruct s as [|c1 [|c2 rest]]; cbn [dashRAt]; try discriminate.
  rewrite !andb_true_iff. intros [[[Hb Hc1] _] _].
  apply N.eqb_eq in Hc1. subst c1. unfold wordBoundary in Hb.
  cbn in Hb. rewrite xorb_false_r in Hb. exact Hb.
Qed.

(** C5 on the default configuration. The comment on [parseOperation]
    announces the forms [water-1-r] and [water-r-1]; with the configured
    alias [水] the second form is not recognised, because [\b] counts only
    ASCII letters, digits and [_] as word characters. *)
Theorem dash_r_after_cjk_alias_is_not_stripped :
  parseOperation asciiLower defaultConfig (js "水-r-1") = None
  /\ testDashR None (js "水-r-1") = false
  /\ parseOperation asciiLower defaultConfig (js "水-1-r")
     = Some (Operation.mk waterName MINUS 1 true)
  /\ parseOperation asciiLower defaultConfig (js "water-r-1")
     = Some (Operation.mk waterName MINUS 1 true)
  /\ parseOperation asciiLower defaultConfig (js "water-1 -r") = None.
Proof. repeat split; vm_compute; reflexivity. Qed.

Lemma mutate_count_nonneg op item item' change actualOp :
  0 <= Operation.value op -> 0 <= StockItem.count item ->
  mutate op item = Some (item', change, actualOp) ->
  0 <= StockItem.count item'.
Proof.
  intros Hv Hc. unfold mutate.
  destruct (Operation.operation op =? PLUS)%N.
  { intros H. injection H as <- _ _.
    destruct (Operation.noRank op); cbn; lia. }
  destruct (Operation.operation op =? MINUS)%N.
  { intros H. injection H as <- _ _.
    destruct (Operation.noRank op); cbn;
      destruct (Z.ltb_spec (StockItem.count item - Operation.value op) 0);
      cbn; lia. }
  destruct (Operation.operation op =? EQUALS)%N.
  { destruct (0 <? _).
    { intros H. injection H as <- _ _.
      destruct (Operation.noRank op); cbn; lia. }
    destruct (_ <? 0); [|discriminate].
    intros H. injection H as <- _ _.
    destruct (Operation.noRank op); cbn; lia. }
  intros H. injection H as <- _ _. exact Hc.
Qed.

(** The chat messages keep every count at 0 or above. *)
Lemma onMessage_counts_nonneg toLowerCase config canonicalize e session st :
  countsNonneg st ->
  countsNonneg (fst (onMessage toLowerCase config canonicalize e session st)).
Proof.
  intros Hst. unfold onMessage.
  destruct (_ || _); [exact Hst|].
  destruct (negb _); [exact Hst|].
  destruct (trim (Session.content session)) as [|c text]; [exact Hst|].
  destruct (parseOperation toLowerCase config (c :: text)) as [op|] eqn:Hop.
  2: { destruct (isQueryMessage _ _ _ _ _) as [| itemName | |];
         try exact Hst.
       intros k it.
       destruct (handleQuery_state (Config.defaultQueryMessage config) e
                   itemName st) as [-> | ->]; [apply Hst|].
       rewrite (proj1 (getRecords_frame e st)). apply Hst. }
  pose proof (parseOperation_value_nonneg toLowerCase config _ _ Hop) as Hv.
  destruct (handleOperation config e session op st) as [st' msg] eqn:Hrun.
  cbn [fst].
  assert (Hst' : st' = fst (handleOperation config e session op st))
    by (rewrite Hrun; reflexivity).
  destruct (stockData st !! Operation.itemName op) as [item|] eqn:Hitem.
  - destruct (mutate op item) as [[[item' change] actualOp]|] eqn:Hmut.
    + destruct (handleOperation_mutating config e session op st _ _ _ _
                  Hitem Hmut) as (Hsd & _).
      rewrite <- Hst' in Hsd. intros k it. rewrite Hsd.
      assert (Hc' : 0 <= StockItem.count item')
        by (eapply mutate_count_nonneg; eauto).
      rewrite lookup_insert.
      destruct (decide (StockItem.name item' = k));
        [intros H; injection H as <-; exact Hc'|].
      rewrite lookup_insert.
      destruct (decide (Operation.itemName op = k));
        [intros H; injection H as <-; exact Hc'|].
      apply Hst.
    + unfold handleOperation in Hrun. rewrite Hitem, Hmut in Hrun.
      injection Hrun as <- _. exact Hst.
  - unfold handleOperation in Hrun. rewrite Hitem in Hrun.
    injection Hrun as <- _. exact Hst.
Qed.

(** C8 on the default configuration. [stock.set water -5] stores the
    negative count as it is: the clamp of the decrease branch has no
    counterpart in the admin command. *)
Theorem stock_set_stores_negative_count :
  Reachable asciiLower defaultConfig asciiUpper
    (fst (step asciiLower defaultConfig asciiUpper setNegative freshState))
  /\ countsNonneg freshState
  /\ stockData (fst (step asciiLower defaultConfig asciiUpper setNegative freshState))
     !! waterName = Some (waterItem (-5) 0 0)
  /\ ~ countsNonneg (fst (step asciiLower defaultConfig asciiUpper setNegative freshState)).
Proof.
  assert (Hl : stockData
                 (fst (step asciiLower defaultConfig asciiUpper setNegative freshState))
               !! waterName = Some (waterItem (-5) 0 0))
    by (vm_compute; reflexivity).
  split; [exists IoOk, IoOk, None, [], [setNegative]; reflexivity|].
  split.
  { assert (Hfresh : stockData freshState
                     = <[waterName := waterItem 0 0 0]>
                         (∅ : gmap jsstring StockItem.t))
      by (vm_compute; reflexivity).
    intros k item. rewrite Hfresh, lookup_insert.
    destruct (decide _); [intros H; injection H as <-; cbn; lia|].
    rewrite lookup_empty. discriminate. }
  split; [exact Hl|].
  intros H. specialize (H _ _ Hl). cbn in H. lia.
Qed.

(** A failed write of the item table changes nothing and says nothing. *)
Lemma failed_save_is_silent toLowerCase config canonicalize o st :
  o = IoMkdirFails \/ o = IoWriteFails ->
  step toLowerCase config canonicalize (EvSaveTimer o) st = (st, None).
Proof. intros [-> | ->]; reflexivity. Qed.

(** The answer to an operation is made before any write is attempted: it
    is the same whether or not the disk will accept the write. *)
Lemma handleOperation_before_write config t r session op st :
  handleOperation config (mkEnv t r IoWriteFails) session op st
  = handleOperation config (mkEnv t r IoOk) session op st.
Proof. reflexivity. Qed.

(** C9 on the default configuration. [water+5] is answered with the
    success text and the verification code; when the write armed by it
    fails, the count stays at 5 in memory, items.yml still holds 0, and
    nothing is said to the chat. *)
Theorem failed_write_is_not_reported :
  let run1 :=
    step asciiLower defaultConfig asciiUpper
      (EvMessage (mkEnv 1000 (js "a1b2c3") IoWriteFails)
         (demoSession "water+5"))
      freshState in
  let st1 := fst run1 in
  snd run1
  = Some (js "纯净水 +5，当前库存：5瓶" ++ NL ++ NL
          ++ js "纯净水累计排行榜：" ++ NL
          ++ js "1. Alice: 5瓶" ++ NL ++ NL
          ++ js "wmc_ref: 1000_10001_纯净水_a1b2c3")
  /\ saveTimer st1 = Some 1500
  /\ step asciiLower defaultConfig asciiUpper (EvSaveTimer IoWriteFails) st1 = (st1, None)
  /\ stockData st1 !! waterName = Some (waterItem 5 5 0)
  /\ option_map (fun file => file !! waterName) (itemsFile st1)
     = Some (Some (waterItem 0 0 0)).
Proof. repeat split; vm_compute; reflexivity. Qed.

(** ** Further properties of the engine *)

Lemma mutate_keeps_identity op item item' change actualOp :
  mutate op item = Some (item', change, actualOp) ->
  StockItem.name item' = StockItem.name item
  /\ StockItem.aliases item' = StockItem.aliases item.
Proof.
  unfold mutate.
  repeat match goal with
         | |- context [if ?b then _ else _] => destruct b
         end;
    intros H; try discriminate; injection H as <- _ _; split; reflexivity.
Qed.

Lemma mutate_totals_grow op item item' change actualOp :
  0 <= Operation.value op ->
  mutate op item = Some (item', change, actualOp) ->
  StockItem.totalAdded item <= StockItem.totalAdded item'
  /\ StockItem.totalConsumed item <= StockItem.totalConsumed item'.
Proof.
  intros Hv. unfold mutate.
  destruct (Operation.operation op =? PLUS)%N.
  { intros H. injection H as <- _ _.
    destruct (Operation.noRank op); cbn; lia. }
  destruct (Operation.operation op =? MINUS)%N.
  { intros H. injection H as <- _ _.
    destruct (Operation.noRank op),
      (StockItem.count item - Operation.value op <? 0); cbn; lia. }
  destruct (Operation.operation op =? EQUALS)%N.
  { destruct (Z.ltb_spec 0 (Operation.value op - StockItem.count item)).
    { intros H'. injection H' as <- _ _.
      destruct (Operation.noRank op); cbn; lia. }
    destruct (Z.ltb_spec (Operation.value op - StockItem.count item) 0);
      [|discriminate].
    intros H'. injection H' as <- _ _.
    destruct (Operation.noRank op); cbn; lia. }
  intros H. injection H as <- _ _. lia.
Qed.

(** The three ways [handleOperation] can go. *)
Lemma handleOperation_cases config e session op st :
  (stockData st !! Operation.itemName op = None
   /\ fst (handleOperation config e session op st) = st)
  \/ (exists item,
        stockData st !! Operation.itemName op = Some item
        /\ mutate op item = None
        /\ fst (handleOperation config e session op st) = st)
  \/ (exists item item' change actualOp,
        stockData st !! Operation.itemName op = Some item
        /\ mutate op item = Some (item', change, actualOp)
        /\ stockData (fst (handleOperation config e session op st))
           = <[StockItem.name item' := item']>
               (<[Operation.itemName op := item']> (stockData st))).
Proof.
  destruct (stockData st !! Operation.itemName op) as [item|] eqn:Hitem.
  - destruct (mutate op item) as [[[item' change] actualOp]|] eqn:Hmut.
    + right; right. exists item, item', change, actualOp.
      destruct (handleOperation_mutating config e session op st _ _ _ _
                  Hitem Hmut) as (Hsd & _). auto.
    + right; left. exists item. unfold handleOperation.
      rewrite Hitem, Hmut. auto.
  - left. unfold handleOperation. rewrite Hitem. auto.
Qed.

(** An increase adds its magnitude to the count, and to [totalAdded]
    unless it is excluded from the ranking; [totalConsumed] stays, and the
    history entry carries the magnitude as its change. *)
Theorem increase_adds_to_count_and_total config e session op st item :
  stockData st !! Operation.itemName op = Some item ->
  Operation.operation op = PLUS ->
  let st' := fst (handleOperation config e session op st) in
  exists item',
    stockData st' !! Operation.itemName op = Some item'
    /\ StockItem.count item' = StockItem.count item + Operation.value op
    /\ StockItem.totalAdded item'
       = (if Operation.noRank op then StockItem.totalAdded item
          else StockItem.totalAdded item + Operation.value op)
    /\ StockItem.totalConsumed item' = StockItem.totalConsumed item
    /\ exists r,
         recordsCache st' = Some (fst (getRecords e st) ++ [r])
         /\ StockRecord.itemName r = Operation.itemName op
         /\ StockRecord.change r = Operation.value op
         /\ StockRecord.isRanked r = negb (Operation.noRank op)
         /\ StockRecord.timestamp r = now e.
Proof.
  intros Hitem Hop st'.
  destruct (mutate_plus op item Hop) as (item' & Hmut & Hc & Hta & Htc).
  destruct (handleOperation_mutating config e session op st _ _ _ _ Hitem Hmut)
    as (Hsd & Hrc & _).
  exists item'. subst st'. rewrite Hsd, Hrc.
  split; [apply lookup_after_save|]. repeat split; try assumption.
  eexists; split; [reflexivity|]. repeat split.
Qed.

Lemma increase_of_five_on_two :
  exists item',
    stockData
      (fst (handleOperation defaultConfig (demoEnv 3000)
              (demoSession "water+5")
              (Operation.mk waterName PLUS 5 false) stockOfTwo))
    !! waterName = Some item'
    /\ StockItem.count item' = 7
    /\ StockItem.totalAdded item' = 10.
Proof.
  destruct (increase_adds_to_count_and_total defaultConfig
              (demoEnv 3000) (demoSession "water+5")
              (Operation.mk waterName PLUS 5 false) stockOfTwo
              (waterItem 2 5 3))
    as (item' & Hl & Hc & Hta & _).
  - vm_compute. reflexivity.
  - reflexivity.
  - exists item'. split; [exact Hl|]. split; [exact Hc|exact Hta].
Defined.


(** A message from a private chat, from a group outside a non-empty
    whitelist, or with blank text changes nothing and is not answered. *)
Theorem ignored_messages_change_nothing toLowerCase config canonicalize e session st :
  Session.channelId session = []
  \/ Session.channelId session = Session.userId session
  \/ isWhitelisted config (Session.channelId session) = false
  \/ trim (Session.content session) = [] ->
  onMessage toLowerCase config canonicalize e session st = (st, None).
Proof.
  unfold onMessage. intros [H | [H | [H | H]]].
  - rewrite (bool_decide_eq_true_2 _ H). reflexivity.
  - rewrite (bool_decide_eq_true_2 _ H), orb_true_r. reflexivity.
  - destruct (_ || _); [reflexivity|]. rewrite H. reflexivity.
  - destruct (_ || _); [reflexivity|]. destruct (negb _); [reflexivity|].
    rewrite H. reflexivity.
Qed.

Lemma private_message_is_ignored :
  onMessage asciiLower defaultConfig asciiUpper (demoEnv 3000)
    (Session.mk (js "10001") (js "10001") (js "water+5") (js "Alice") [])
    stockOfTwo
  = (stockOfTwo, None).
Proof.
  apply ignored_messages_change_nothing. right. left. reflexivity.
Defined.

(** ** Invariants along a run *)

Section RunFacts.
Variable toLowerCase : jsstring -> jsstring.
Variable config : Config.t.
Variable canonicalize : code_unit -> code_unit.

Lemma run_invariant (P : State -> Prop) evs st :
  P st ->
  (forall ev s, P s -> P (fst (step toLowerCase config canonicalize ev s))) ->
  P (run toLowerCase config canonicalize evs st).
Proof.
  intros Hst Hstep. revert st Hst.
  induction evs as [|ev evs IH]; intros st Hst; [exact Hst|].
  change (run toLowerCase config canonicalize (ev :: evs) st)
    with (run toLowerCase config canonicalize evs (fst (step toLowerCase config canonicalize ev st))).
  apply IH, Hstep, Hst.
Qed.

(** What an event can do to the item table: nothing, or put an item under
    a key that was there and under the name of that item. *)
Lemma step_table ev st :
  stockData (fst (step toLowerCase config canonicalize ev st)) = stockData st
  \/ exists k item item',
       stockData st !! k = Some item
       /\ StockItem.name item' = StockItem.name item
       /\ StockItem.aliases item' = StockItem.aliases item
       /\ StockItem.totalAdded item <= StockItem.totalAdded item'
       /\ StockItem.totalConsumed item <= StockItem.totalConsumed item'
       /\ stockData (fst (step toLowerCase config canonicalize ev st))
          = <[StockItem.name item' := item']> (<[k := item']> (stockData st)).
Proof.
  destruct (step_cases toLowerCase config canonicalize ev st)
    as [-> | [[e ->] | [(e & session & op & _ & Hop & ->)
       | [(e & session & item & itemName & stockItem & c & _ & _ & Hl & ->)
       | [(o & _ & ->) | (o & _ & ->)]]]]].
  - left. reflexivity.
  - left. apply getRecords_frame.
  - destruct (handleOperation_cases config e session op st)
      as [[_ ->] | [(item0 & _ & _ & ->) | (item0 & item' & change & actualOp
                                            & Hitem0 & Hmut & ->)]];
      [left; reflexivity|left; reflexivity|].
    right. exists (Operation.itemName op), item0, item'.
    destruct (mutate_keeps_identity _ _ _ _ _ Hmut).
    pose proof (parseOperation_value_nonneg toLowerCase config _ _ Hop) as Hv.
    destruct (mutate_totals_grow _ _ _ _ _ Hv Hmut).
    repeat split; auto.
  - right. exists itemName, stockItem, (with_count c stockItem).
    repeat split; [exact Hl|reflexivity|reflexivity].
  - left. destruct o; reflexivity.
  - left. unfold fireRecordsTimer.
    destruct (recordsCache st); [destruct o|]; reflexivity.
Qed.

Lemma step_keeps_keys ev st k :
  is_Some (stockData st !! k) ->
  is_Some (stockData (fst (step toLowerCase config canonicalize ev st)) !! k).
Proof.
  intros Hk.
  destruct (step_table ev st)
    as [-> | (k0 & item & item' & _ & _ & _ & _ & _ & ->)]; [exact Hk|].
  rewrite !lookup_insert. repeat destruct (decide _); eauto.
Qed.

Lemma configuredAs_Some ci :
  In ci (Config.items config) ->
  exists ci', configuredAs config (ConfigItem.name ci) = Some ci'.
Proof.
  intros Hin. unfold configuredAs.
  destruct (find _ (rev (Config.items config))) as [ci'|] eqn:Hf; [eauto|].
  exfalso. apply in_rev in Hin.
  pose proof (find_none _ _ Hf ci Hin) as Hb. cbn beta in Hb.
  rewrite bool_decide_eq_true_2 in Hb by reflexivity. discriminate.
Qed.

Lemma configuredAs_name k ci :
  configuredAs config k = Some ci ->
  In ci (Config.items config) /\ ConfigItem.name ci = k.
Proof.
  unfold configuredAs. intros Hf. apply find_some in Hf as [Hin Hk].
  apply in_rev in Hin. apply bool_decide_eq_true in Hk. auto.
Qed.

Lemma firstConfiguredAs_Some ci :
  In ci (Config.items config) ->
  exists ci', firstConfiguredAs config (ConfigItem.name ci) = Some ci'.
Proof.
  intros Hin. unfold firstConfiguredAs.
  destruct (find _ (Config.items config)) as [ci'|] eqn:Hf; [eauto|].
  exfalso. pose proof (find_none _ _ Hf ci Hin) as Hb. cbn beta in Hb.
  rewrite bool_decide_eq_true_2 in Hb by reflexivity. discriminate.
Qed.

Lemma firstConfiguredAs_name k ci :
  firstConfiguredAs config k = Some ci ->
  In ci (Config.items config) /\ ConfigItem.name ci = k.
Proof.
  unfold firstConfiguredAs. intros Hf. apply find_some in Hf as [Hin Hk].
  apply bool_decide_eq_true in Hk. auto.
Qed.

Lemma configuredAs_None k :
  configuredAs config k = None -> firstConfiguredAs config k = None.
Proof.
  unfold configuredAs, firstConfiguredAs. intros Hf.
  destruct (find _ (Config.items config)) as [ci|] eqn:Hg; [|reflexivity].
  apply find_some in Hg as [Hin Hk]. apply in_rev in Hin.
  pose proof (find_none _ _ Hf ci Hin) as Hb. cbn beta in Hb. congruence.
Qed.

Lemma seed_lookup (saved : gmap jsstring StockItem.t)
    (items : list ConfigItem.t) (m : gmap jsstring StockItem.t)
    (k : jsstring) :
  fold_left
    (fun m ci =>
       match saved !! ConfigItem.name ci with
       | Some savedItem =>
           <[ConfigItem.name ci :=
               with_aliases (ConfigItem.aliases ci) savedItem]> m
       | None => <[ConfigItem.name ci := defaultItem ci]> m
       end)
    items m !! k
  = match find (fun ci => bool_decide (ConfigItem.name ci = k)) (rev items) with
    | Some ci =>
        Some (match saved !! k with
              | Some savedItem => with_aliases (ConfigItem.aliases ci) savedItem
              | None => defaultItem ci
              end)
    | None => m !! k
    end.
Proof.
  revert m. induction items as [|ci l IH]; intros m; cbn [fold_left rev];
    [reflexivity|].
  rewrite IH, find_app. destruct (find _ (rev l)); [reflexivity|].
  cbn [find].
  destruct (bool_decide_reflect (ConfigItem.name ci = k)) as [<-|Hne].
  - destruct (saved !! ConfigItem.name ci); apply lookup_insert_eq.
  - destruct (saved !! ConfigItem.name ci); apply lookup_insert_ne; exact Hne.
Qed.

Lemma fallback_lookup (items : list ConfigItem.t)
    (m : gmap jsstring StockItem.t) (k : jsstring) :
  fold_left
    (fun m ci =>
       match m !! ConfigItem.name ci with
       | Some _ => m
       | None => <[ConfigItem.name ci := defaultItem ci]> m
       end)
    items m !! k
  = match m !! k with
    | Some item => Some item
    | None =>
        match find (fun ci => bool_decide (ConfigItem.name ci = k)) items with
        | Some ci => Some (defaultItem ci)
        | None => None
        end
    end.
Proof.
  revert m. induction items as [|ci l IH]; intros m; cbn [fold_left find].
  { destruct (m !! k); reflexivity. }
  rewrite IH.
  destruct (bool_decide_reflect (ConfigItem.name ci = k)) as [<-|Hne].
  - destruct (m !! ConfigItem.name ci) as [item|] eqn:Hm.
    + rewrite Hm. reflexivity.
    + rewrite lookup_insert_eq. reflexivity.
  - destruct (m !! ConfigItem.name ci) as [item|]; [reflexivity|].
    rewrite lookup_insert_ne by exact Hne. reflexivity.
Qed.

(** The table after start-up, key by key. *)
Lemma loadStockData_lookup o file k :
  loadStockData config o file !! k
  = match (if loadFails o file then firstConfiguredAs config k
           else configuredAs config k) with
    | Some ci =>
        Some (match savedItems o file !! k with
              | Some savedItem => with_aliases (ConfigItem.aliases ci) savedItem
              | None => defaultItem ci
              end)
    | None => None
    end.
Proof.
  assert (Hseed : forall saved,
             seedTable config saved !! k
             = match configuredAs config k with
               | Some ci =>
                   Some (match saved !! k with
                         | Some savedItem =>
                             with_aliases (ConfigItem.aliases ci) savedItem
                         | None => defaultItem ci
                         end)
               | None => None
               end).
  { intros saved. unfold seedTable, configuredAs. rewrite seed_lookup.
    destruct (find _ _); [reflexivity|apply lookup_empty]. }
  assert (Hfall : fallbackTable config ∅ !! k
                  = match firstConfiguredAs config k with
                    | Some ci => Some (defaultItem ci)
                    | None => None
                    end).
  { unfold fallbackTable, firstConfiguredAs.
    rewrite fallback_lookup, lookup_empty. reflexivity. }
  unfold loadStockData, savedItems.
  destruct o, file as [data|]; cbn [loadFails];
    rewrite ?lookup_empty; try exact Hfall; try apply Hseed.
  unfold fallbackTable. rewrite fallback_lookup, Hseed, lookup_empty.
  destruct (configuredAs config k) as [ci|] eqn:Hc; [reflexivity|].
  apply configuredAs_None in Hc. unfold firstConfiguredAs in Hc.
  rewrite Hc. reflexivity.
Qed.

Lemma initialState_table o o' items records :
  stockData (initialState config o o' items records)
  = loadStockData config o items.
Proof.
  unfold initialState, loadRecords. cbn [io].
  destruct o'; try reflexivity; destruct records; reflexivity.
Qed.

Lemma reachable_invariant (P : State -> Prop) st :
  (forall o o' items records, P (initialState config o o' items records)) ->
  (forall ev s, P s -> P (fst (step toLowerCase config canonicalize ev s))) ->
  Reachable toLowerCase config canonicalize st -> P st.
Proof.
  intros Hinit Hstep (o & o' & items & records & evs & ->).
  apply run_invariant; auto.
Qed.

Lemma reachable_configuredPresent st :
  Reachable toLowerCase config canonicalize st -> configuredPresent config st.
Proof.
  apply reachable_invariant.
  - intros o o' items records ci Hin.
    rewrite initialState_table, loadStockData_lookup.
    destruct (configuredAs_Some ci Hin) as [ci' ->].
    destruct (firstConfiguredAs_Some ci Hin) as [ci'' ->].
    destruct (loadFails o items); eauto.
  - intros ev s Hs ci Hin. apply step_keeps_keys, Hs, Hin.
Qed.

(** After start-up, whatever happened since, the item of a parsed operation
    is in the table: the "item does not exist" answer of [handleOperation]
    is never given to a chat message. *)
Theorem parsed_item_is_in_table st text op :
  Reachable toLowerCase config canonicalize st ->
  parseOperation toLowerCase config text = Some op ->
  is_Some (stockData st !! Operation.itemName op).
Proof.
  intros Hr Hop.
  destruct (parseOperation_Some toLowerCase config text op Hop)
    as (alias & ds & _ & Hn & _).
  rewrite getItemName_spec in Hn.
  destruct (find _ _) as [ci|] eqn:Hf; [|discriminate].
  apply find_some in Hf as [Hin _]. apply in_rev in Hin.
  assert (Hname : ConfigItem.name ci = Operation.itemName op)
    by (destruct (ConfigItem.name ci); [discriminate|congruence]).
  rewrite <- Hname. apply (reachable_configuredPresent st Hr ci Hin).
Qed.

Lemma step_keyedByName ev st :
  keyedByName st -> keyedByName (fst (step toLowerCase config canonicalize ev st)).
Proof.
  intros Hst.
  destruct (step_table ev st)
    as [Heq | (k0 & item & item' & Hl & Hn & _ & _ & _ & Heq)];
    unfold keyedByName; rewrite Heq; [exact Hst|].
  intros k it. rewrite !lookup_insert.
  destruct (decide (StockItem.name item' = k));
    [intros H; injection H as <-; assumption|].
  destruct (decide (k0 = k)) as [<-|]; [|apply Hst].
  intros H; injection H as <-. rewrite Hn. apply (Hst _ _ Hl).
Qed.

(** The process started on a file in which every item sits under its own
    name, or without a file, keeps every item of the table under its name:
    no item is ever reachable under two keys. *)
Lemma run_keyedByName o o' items records evs :
  (forall data k item,
      items = Some data -> data !! k = Some item -> StockItem.name item = k) ->
  keyedByName
    (run toLowerCase config canonicalize evs
       (initialState config o o' items records)).
Proof.
  intros Hfile. apply run_invariant; [|apply step_keyedByName].
  intros k item. rewrite initialState_table, loadStockData_lookup.
  destruct (if loadFails o items then firstConfiguredAs config k
            else configuredAs config k) as [ci|] eqn:Hci; [|discriminate].
  assert (Hn : ConfigItem.name ci = k).
  { destruct (loadFails o items);
      [apply firstConfiguredAs_name in Hci|apply configuredAs_name in Hci];
      apply Hci. }
  destruct (savedItems o items !! k) as [saved|] eqn:Hs;
    intros H; injection H as <-; [|exact Hn].
  cbn [with_aliases StockItem.name]. unfold savedItems in Hs.
  destruct (loadFails o items); [rewrite lookup_empty in Hs; discriminate|].
  destruct items as [data|]; [|rewrite lookup_empty in Hs; discriminate].
  exact (Hfile data k saved eq_refl Hs).
Qed.

Lemma step_totals ev st k item :
  keyedByName st ->
  stockData st !! k = Some item ->
  exists item',
    stockData (fst (step toLowerCase config canonicalize ev st)) !! k = Some item'
    /\ StockItem.totalAdded item <= StockItem.totalAdded item'
    /\ StockItem.totalConsumed item <= StockItem.totalConsumed item'.
Proof.
  intros Hst Hk.
  destruct (step_table ev st)
    as [-> | (k0 & item0 & item' & Hl & Hn & _ & Hta & Htc & ->)].
  { exists item. repeat split; [exact Hk|lia|lia]. }
  assert (Hk0 : StockItem.name item' = k0)
    by (rewrite Hn; apply (Hst _ _ Hl)).
  rewrite Hk0, !lookup_insert.
  destruct (decide (k0 = k)) as [<-|Hne].
  - rewrite Hl in Hk. injection Hk as <-. exists item'. auto.
  - exists item. repeat split; [exact Hk|lia|lia].
Qed.

(** Starting from a table in which every item sits under its name, no
    event ever lowers [totalAdded] or [totalConsumed] of an item, and no
    item leaves the table. *)
Theorem totals_never_decrease evs st k item :
  keyedByName st ->
  stockData st !! k = Some item ->
  exists item',
    stockData (run toLowerCase config canonicalize evs st) !! k = Some item'
    /\ StockItem.totalAdded item <= StockItem.totalAdded item'
    /\ StockItem.totalConsumed item <= StockItem.totalConsumed item'.
Proof.
  revert st item. induction evs as [|ev evs IH]; intros st item Hst Hk.
  { exists item. repeat split; [exact Hk|lia|lia]. }
  change (run toLowerCase config canonicalize (ev :: evs) st)
    with (run toLowerCase config canonicalize evs (fst (step toLowerCase config canonicalize ev st))).
  destruct (step_totals ev st k item Hst Hk) as (item1 & Hk1 & Hta1 & Htc1).
  destruct (IH _ item1 (step_keyedByName ev st Hst) Hk1)
    as (item' & Hk' & Hta & Htc).
  exists item'. repeat split; [exact Hk'|lia|lia].
Qed.

(** *** Record ids *)

Lemma fold_max_ge l a x :
  x <= a \/ In x l -> x <= fold_left Z.max l a.
Proof.
  revert a. induction l as [|z l IH]; intros a H; cbn [fold_left].
  - destruct H as [H|[]]. exact H.
  - apply IH. destruct H as [H | [<- | H]]; [left; lia|left; lia|right; exact H].
Qed.

Lemma maxOf_ge l x : In x l -> x <= maxOf l.
Proof.
  destruct l as [|y l]; [intros []|]. cbn [maxOf].
  intros [<- | H]; apply fold_max_ge; [left; lia|right; exact H].
Qed.

Lemma getRecords_idsBelowNext e st :
  idsBelowNext st ->
  Forall (fun r => StockRecord.id r < nextRecordId (snd (getRecords e st)))
    (fst (getRecords e st)).
Proof.
  intros Hst. unfold getRecords.
  destruct (recordsCache st) as [cache|] eqn:Hc; [apply Hst, Hc|].
  assert (Hload : forall r records,
             Forall
               (fun r0 => StockRecord.id r0
                          < maxOf (map StockRecord.id (r :: records)) + 1)
               (r :: records)).
  { intros r records. apply Forall_forall. intros r0 Hr0.
    assert (StockRecord.id r0 <= maxOf (map StockRecord.id (r :: records)))
      by (apply maxOf_ge, in_map, list_elem_of_In, Hr0). lia. }
  unfold loadRecords.
  destruct (io e); [|constructor| |constructor];
    (destruct (recordsFile st) as [|r records]; [constructor|apply Hload]).
Qed.

Lemma step_idsBelowNext ev st :
  idsBelowNext st -> idsBelowNext (fst (step toLowerCase config canonicalize ev st)).
Proof.
  intros Hst.
  destruct (step_cases toLowerCase config canonicalize ev st)
    as [-> | [[e ->] | [(e & session & op & _ & _ & ->)
       | [(e & session & item & itemName & stockItem & c & _ & _ & _ & ->)
       | [(o & _ & ->) | (o & _ & ->)]]]]].
  - exact Hst.
  - intros cache. rewrite getRecords_cache. intros H; injection H as <-.
    apply getRecords_idsBelowNext, Hst.
  - destruct (stockData st !! Operation.itemName op) as [item|] eqn:Hitem.
    + destruct (mutate op item) as [[[item' change] actualOp]|] eqn:Hmut.
      * destruct (handleOperation_mutating config e session op st _ _ _ _
                    Hitem Hmut) as (_ & Hrc & Hnext & _).
        intros cache. rewrite Hrc, Hnext. intros H; injection H as <-.
        apply Forall_app. split.
        -- eapply Forall_impl; [apply getRecords_idsBelowNext, Hst|].
           cbn. intros; lia.
        -- constructor; [|constructor]. cbn. lia.
      * unfold handleOperation. rewrite Hitem, Hmut. exact Hst.
    + unfold handleOperation. rewrite Hitem. exact Hst.
  - exact Hst.
  - destruct o; exact Hst.
  - unfold fireRecordsTimer.
    destruct (recordsCache st) as [cache|] eqn:Hc;
      [|intros c H; cbn in H; congruence].
    destruct o; [|exact Hst| |]; intros c H; injection H as <-;
      cbn [nextRecordId set_recordsTimer set_recordsFile set_recordsCache];
      rewrite sortRecords_perm; apply Hst, Hc.
Qed.

Lemma reachable_idsBelowNext st :
  Reachable toLowerCase config canonicalize st -> idsBelowNext st.
Proof.
  apply reachable_invariant; [|apply step_idsBelowNext].
  intros o o' items records cache. unfold initialState, loadRecords.
  cbn [io]. destruct o'; cbn; try discriminate; destruct records; discriminate.
Qed.

(** In every state the process can reach, the history entry a mutation
    appends gets an id larger than the id of every entry already in the
    log. *)
Theorem new_entry_id_is_fresh st e session op item item' change actualOp :
  Reachable toLowerCase config canonicalize st ->
  stockData st !! Operation.itemName op = Some item ->
  mutate op item = Some (item', change, actualOp) ->
  let r := appended e session op change st in
  recordsCache (fst (handleOperation config e session op st))
  = Some (fst (getRecords e st) ++ [r])
  /\ Forall (fun r0 => StockRecord.id r0 < StockRecord.id r)
       (fst (getRecords e st)).
Proof.
  intros Hr Hitem Hmut r.
  destruct (handleOperation_mutating config e session op st _ _ _ _ Hitem Hmut)
    as (_ & Hrc & _).
  split; [exact Hrc|].
  apply getRecords_idsBelowNext, reachable_idsBelowNext, Hr.
Qed.

(** *** Start-up and restart *)

(** The table [loadStockData] builds, whatever the file system does, for
    a configuration without a name of [Object.prototype]: every configured
    item is there; nothing else is, saved or not. When the load fails (no
    data directory, or a file that does not parse) each item is the default
    of the first configured item of its name. Otherwise it has the aliases
    of the last configured item of its name, with the saved counters when
    the file has the name and 0 when it does not. *)
Theorem startup_table_follows_configuration o file :
  ownNames config ->
  (forall ci,
      In ci (Config.items config) ->
      is_Some (loadStockData config o file !! ConfigItem.name ci))
  /\ (forall k,
        (forall ci, In ci (Config.items config) -> ConfigItem.name ci <> k) ->
        loadStockData config o file !! k = None)
  /\ (forall k item,
        loadStockData config o file !! k = Some item ->
        exists ci,
          (if loadFails o file then firstConfiguredAs config k
           else configuredAs config k) = Some ci
          /\ In ci (Config.items config)
          /\ ConfigItem.name ci = k
          /\ StockItem.aliases item = ConfigItem.aliases ci
          /\ (savedItems o file !! k = None -> item = defaultItem ci)
          /\ (forall saved,
                savedItems o file !! k = Some saved ->
                StockItem.name item = StockItem.name saved
                /\ StockItem.count item = StockItem.count saved
                /\ StockItem.totalAdded item = StockItem.totalAdded saved
                /\ StockItem.totalConsumed item = StockItem.totalConsumed saved))
  /\ (loadFails o file = true ->
      forall k item,
        loadStockData config o file !! k = Some item ->
        exists ci, firstConfiguredAs config k = Some ci
                   /\ item = defaultItem ci).
Proof.
  intros _. split; [|split; [|split]].
  - intros ci Hin. rewrite loadStockData_lookup.
    destruct (configuredAs_Some ci Hin) as [ci' ->].
    destruct (firstConfiguredAs_Some ci Hin) as [ci'' ->].
    destruct (loadFails o file); eauto.
  - intros k Hk. rewrite loadStockData_lookup.
    assert (Hc : configuredAs config k = None).
    { destruct (configuredAs config k) as [ci|] eqn:Hc; [|reflexivity].
      destruct (configuredAs_name k ci Hc) as [Hin Hn].
      destruct (Hk ci Hin Hn). }
    rewrite Hc, (configuredAs_None k Hc).
    destruct (loadFails o file); reflexivity.
  - intros k item. rewrite loadStockData_lookup.
    destruct (if loadFails o file then firstConfiguredAs config k
              else configuredAs config k) as [ci|] eqn:Hci; [|discriminate].
    intros H. injection H as <-. exists ci. split; [reflexivity|].
    assert (Hin : In ci (Config.items config) /\ ConfigItem.name ci = k).
    { destruct (loadFails o file);
        [apply firstConfiguredAs_name|apply configuredAs_name]; exact Hci. }
    split; [apply Hin|]. split; [apply Hin|].
    destruct (savedItems o file !! k) as [saved|].
    + split; [reflexivity|]. split; [discriminate|].
      intros saved' H. injection H as <-. repeat split.
    + split; [reflexivity|]. split; [reflexivity|]. discriminate.
  - intros Hf k item. rewrite loadStockData_lookup, Hf.
    unfold savedItems. rewrite Hf, lookup_empty.
    destruct (firstConfiguredAs config k) as [ci|]; [|discriminate].
    intros H. injection H as <-. eauto.
Qed.

(** *** The admin command *)

(** An accepted [stock.set] replaces the count and nothing else: the
    cumulative totals stay, no history entry is made, only the items timer
    is armed, and the reply ends with a verification code. *)
Theorem stock_set_overrides_count_only e session item c st itemName stockItem :
  Session.channelId session <> [] ->
  isWhitelisted config (Session.channelId session) = true ->
  item <> [] ->
  getItemName toLowerCase config item = Some itemName ->
  stockData st !! itemName = Some stockItem ->
  let st' := fst (stockSet toLowerCase config e session item (Some c) st) in
  let reply := snd (stockSet toLowerCase config e session item (Some c) st) in
  (exists item',
     stockData st' !! itemName = Some item'
     /\ StockItem.count item' = c
     /\ StockItem.totalAdded item' = StockItem.totalAdded stockItem
     /\ StockItem.totalConsumed item' = StockItem.totalConsumed stockItem)
  /\ recordsCache st' = recordsCache st
  /\ nextRecordId st' = nextRecordId st
  /\ recordsTimer st' = recordsTimer st
  /\ saveTimer st' = Some (now e + 500)
  /\ itemsFile st' = itemsFile st
  /\ recordsFile st' = recordsFile st
  /\ exists msg,
       reply = Some msg
       /\ endsWith
            (createGetCode config e (now e)
               (str_or (Session.userId session) (js "unknown")) itemName)
            msg.
Proof.
  intros Hch Hw Hitem Hn Hl st' reply. subst st' reply. unfold stockSet.
  rewrite (bool_decide_eq_false_2 _ Hch), Hw.
  rewrite (bool_decide_eq_false_2 _ Hitem), Hn, Hl. cbn [negb fst snd].
  split.
  { exists (with_count c stockItem). split; [apply lookup_after_save|].
    repeat split. }
  repeat split. eexists. split; [reflexivity|]. ends_with.
Qed.

(** A refused [stock.set] leaves the whole state as it was, and every
    refusal but the one for a missing channel is answered. *)
Theorem stock_set_refusals_change_nothing e session item count st :
  Session.channelId session = []
  \/ isWhitelisted config (Session.channelId session) = false
  \/ item = []
  \/ count = None
  \/ getItemName toLowerCase config item = None ->
  fst (stockSet toLowerCase config e session item count st) = st
  /\ (Session.channelId session <> [] ->
      snd (stockSet toLowerCase config e session item count st) <> None).
Proof.
  unfold stockSet. intros H.
  destruct (bool_decide_reflect (Session.channelId session = [])) as [Hc|Hc].
  { split; [reflexivity|congruence]. }
  destruct (isWhitelisted config (Session.channelId session)) eqn:Hw;
    cbn [negb].
  2: { split; [reflexivity|intros _; discriminate]. }
  match goal with
  | |- context [bool_decide ?P] =>
      destruct (bool_decide_reflect P) as [Hi|Hi]
  end.
  { split; [reflexivity|intros _; discriminate]. }
  destruct count as [c|].
  2: { split; [reflexivity|intros _; discriminate]. }
  destruct (getItemName toLowerCase config item) as [n|] eqn:Hn.
  2: { split; [reflexivity|intros _; discriminate]. }
  exfalso. destruct H as [H | [H | [H | [H | H]]]]; congruence.
Qed.
End RunFacts.

Lemma parsed_water_is_in_stockOfTwo :
  is_Some (stockData stockOfTwo !! waterName).
Proof.
  apply (parsed_item_is_in_table asciiLower defaultConfig asciiUpper stockOfTwo
           (js "water-1") (Operation.mk waterName MINUS 1 false)).
  - exists IoOk, IoOk, None, [],
      (map (fun '(t, s) => EvMessage (demoEnv t) (demoSession s))
         [(1000, "water+5"); (2000, "water-3")]%string).
    reflexivity.
  - vm_compute. reflexivity.
Defined.

Lemma stockOfTwo_reachable : Reachable asciiLower defaultConfig asciiUpper stockOfTwo.
Proof.
  exists IoOk, IoOk, None, [],
    (map (fun '(t, s) => EvMessage (demoEnv t) (demoSession s))
       [(1000, "water+5"); (2000, "water-3")]%string).
  reflexivity.
Qed.

Lemma stockOfTwo_keyedByName : keyedByName stockOfTwo.
Proof.
  assert (Ht : stockData stockOfTwo
               = <[waterName := waterItem 2 5 3]>
                   (∅ : gmap jsstring StockItem.t))
    by (vm_compute; reflexivity).
  intros k item. rewrite Ht, lookup_insert.
  destruct (decide _) as [<-|]; [intros H; injection H as <-; reflexivity|].
  rewrite lookup_empty. discriminate.
Qed.


(** An admin override to -5 and an unranked decrease after [stockOfTwo]
    leave the totals at 5 and 3 or above. *)
Lemma totals_after_override_and_decrease :
  exists item',
    stockData
      (run asciiLower defaultConfig asciiUpper
         [setNegative; EvMessage (demoEnv 4000) (demoSession "water-1-r")]
         stockOfTwo)
    !! waterName = Some item'
    /\ 5 <= StockItem.totalAdded item'
    /\ 3 <= StockItem.totalConsumed item'.
Proof.
  apply (totals_never_decrease asciiLower defaultConfig asciiUpper
           [setNegative; EvMessage (demoEnv 4000) (demoSession "water-1-r")]
           stockOfTwo waterName (waterItem 2 5 3)).
  - exact stockOfTwo_keyedByName.
  - vm_compute. reflexivity.
Defined.

(** The third entry of the log gets an id above those of the first two. *)
Lemma third_entry_id_is_fresh :
  Forall
    (fun r0 =>
       StockRecord.id r0
       < StockRecord.id
           (appended (demoEnv 3000) (demoSession "water+5")
              (Operation.mk waterName PLUS 5 false) 5 stockOfTwo))
    (fst (getRecords (demoEnv 3000) stockOfTwo)).
Proof.
  apply (new_entry_id_is_fresh asciiLower defaultConfig asciiUpper stockOfTwo
           (demoEnv 3000) (demoSession "water+5")
           (Operation.mk waterName PLUS 5 false)
           (waterItem 2 5 3) (waterItem 7 10 3) 5 PLUS).
  - exact stockOfTwo_reachable.
  - vm_compute. reflexivity.
  - reflexivity.
Defined.

(** With the default configuration and no files, the table has the
    configured item. *)
Lemma default_item_is_loaded :
  is_Some (loadStockData defaultConfig IoOk None !! waterName).
Proof.
  apply (proj1 (startup_table_follows_configuration defaultConfig IoOk None
                  ltac:(intros ci [<- | []]; vm_compute;
                        intros H; repeat destruct H as [H | H];
                        try discriminate H; exact H))
           (ConfigItem.mk (js "纯净水") [js "water"; js "水"; js "纯净水"])).
  left. reflexivity.
Defined.

(** [stock.set water 50] on [stockOfTwo]. *)
Lemma stock_set_fifty_keeps_history :
  recordsCache
    (fst (stockSet asciiLower defaultConfig (demoEnv 3000) (demoSession "")
            (js "water") (Some 50) stockOfTwo))
  = recordsCache stockOfTwo.
Proof.
  apply (stock_set_overrides_count_only asciiLower defaultConfig
           (demoEnv 3000) (demoSession "") (js "water") 50 stockOfTwo
           waterName (waterItem 2 5 3)).
  - discriminate.
  - reflexivity.
  - discriminate.
  - vm_compute. reflexivity.
  - vm_compute. reflexivity.
Defined.

(** [stock.set tea 5]: no such alias. *)
Lemma stock_set_unknown_alias :
  fst (stockSet asciiLower defaultConfig (demoEnv 3000) (demoSession "")
         (js "tea") (Some 5) stockOfTwo)
  = stockOfTwo.
Proof.
  apply (stock_set_refusals_change_nothing asciiLower defaultConfig
           (demoEnv 3000) (demoSession "") (js "tea") (Some 5) stockOfTwo).
  do 4 right. vm_compute. reflexivity.
Defined.

(** ** Further properties of the parser *)

Lemma replaceDashR_cons before c1 c2 s2 :
  replaceDashR before (c1 :: c2 :: s2)
  = if dashRAt before (c1 :: c2 :: s2) then replaceDashR (Some c2) s2
    else c1 :: replaceDashR (Some c1) (c2 :: s2).
Proof. reflexivity. Qed.

Lemma testDashR_cons before c s :
  testDashR before (c :: s) = dashRAt before (c :: s) || testDashR (Some c) s.
Proof. reflexivity. Qed.

Lemma dashR_strip_spec n :
  forall before s,
    (length s <= n)%nat ->
    (testDashR before s = false -> replaceDashR before s = s)
    /\ (testDashR before s = true ->
        (length (replaceDashR before s) + 2 <= length s)%nat)
    /\ (length (replaceDashR before s) <= length s)%nat.
Proof.
  induction n as [|n IH]; intros before s Hn.
  { destruct s; [|cbn in Hn; lia]. cbn. repeat split; auto; discriminate. }
  destruct s as [|c1 [|c2 s2]].
  - cbn. repeat split; auto; discriminate.
  - cbn. repeat split; auto; discriminate.
  - rewrite testDashR_cons, replaceDashR_cons.
    destruct (dashRAt before (c1 :: c2 :: s2)) eqn:Hd; cbn [orb].
    + destruct (IH (Some c2) s2) as (_ & _ & Hle); [cbn [length] in *; lia|].
      cbn [length]. repeat split; [discriminate|lia|lia].
    + destruct (IH (Some c1) (c2 :: s2)) as (Hsame & Hless & Hle);
        [cbn [length] in *; lia|].
      repeat split.
      * intros Ht. rewrite (Hsame Ht). reflexivity.
      * intros Ht. specialize (Hless Ht). cbn [length] in *. lia.
      * cbn [length] in *. lia.
Qed.

(** The ranking flag and the stripping go together: when [-r] is not
    detected the text is only trimmed, and when it is detected at least the
    two code units of one [-r] are gone. *)
Theorem flag_set_exactly_when_stripped toLowerCase config text :
  (testDashR None text = false -> cleanText text = trim text)
  /\ (testDashR None text = true ->
      (length (replaceDashR None text) + 2 <= length text)%nat)
  /\ (forall op,
        parseOperation toLowerCase config text = Some op ->
        Operation.noRank op = testDashR None text).
Proof.
  destruct (dashR_strip_spec (length text) None text (le_n _))
    as (Hsame & Hless & _).
  split; [intros Ht; unfold cleanText; rewrite (Hsame Ht); reflexivity|].
  split; [exact Hless|].
  intros op Hop.
  destruct (parseOperation_Some toLowerCase config text op Hop)
    as (_ & _ & _ & _ & _ & Hr). exact Hr.
Qed.

Lemma water_plus_five_is_only_trimmed :
  cleanText (js " water+5 ") = trim (js " water+5 ").
Proof.
  apply (flag_set_exactly_when_stripped asciiLower defaultConfig
           (js " water+5 ")).
  reflexivity.
Defined.

Lemma word_not_dash c : isWordChar c = true -> (c =? 45)%N = false.
Proof.
  intros Hw. destruct (N.eqb_spec c 45) as [->|]; [discriminate|reflexivity].
Qed.

Lemma dashRAt_before_dash before s u :
  s <> [] -> dashRAt before (s ++ 45%N :: u) = dashRAt before s.
Proof.
  destruct s as [|c1 [|c2 [|c3 s3]]]; intros Hne; [congruence| | |];
    cbn [app dashRAt head].
  - assert (H : (45 =? 114)%N = false) by reflexivity.
    rewrite H, andb_false_r. reflexivity.
  - reflexivity.
  - reflexivity.
Qed.

(** A [-r] put right after a text that ends in a word character and holds
    no [-r] of its own is detected, and stripping it gives the text back. *)
Lemma trailing_dashR before t c :
  isWordChar c = true ->
  testDashR before (t ++ [c]) = false ->
  testDashR before (t ++ [c] ++ js "-r") = true
  /\ replaceDashR before (t ++ [c] ++ js "-r") = t ++ [c].
Proof.
  intros Hw. change (js "-r") with [45%N; 114%N].
  revert before. induction t as [|a t IH]; intros before Ht.
  - cbn [app]. rewrite !testDashR_cons, replaceDashR_cons, replaceDashR_cons.
    unfold jsstring, code_unit in *.
    match goal with
    | |- context [dashRAt before ?l] =>
        assert (H0 : dashRAt before l = false)
    end.
    { cbn [dashRAt]. rewrite (word_not_dash c Hw), andb_false_r.
      reflexivity. }
    match goal with
    | |- context [dashRAt (Some c) ?l] =>
        assert (H1 : dashRAt (Some c) l = true)
    end.
    { cbn [dashRAt head]. unfold wordBoundary. cbn [optWordChar].
      rewrite Hw. reflexivity. }
    rewrite H0, H1. split; reflexivity.
  - change ((a :: t) ++ [c]) with (a :: (t ++ [c])) in Ht.
    cbn [testDashR] in Ht. apply orb_false_iff in Ht as [Hd Ht].
    destruct (IH (Some a) Ht) as [IHt IHr].
    change ((a :: t) ++ [c] ++ [45%N; 114%N])
      with (a :: (t ++ [c] ++ [45%N; 114%N])).
    assert (Hd' : dashRAt before (a :: t ++ [c] ++ [45%N; 114%N]) = false).
    { replace (a :: t ++ [c] ++ [45%N; 114%N])
        with ((a :: t ++ [c]) ++ 45%N :: [114%N])
        by (cbn; rewrite <- app_assoc; reflexivity).
      rewrite dashRAt_before_dash by discriminate. exact Hd. }
    split.
    + rewrite testDashR_cons, IHt. apply orb_true_r.
    + destruct (t ++ [c] ++ [45%N; 114%N]) as [|b rest] eqn:Hrest.
      { destruct t; discriminate. }
      rewrite replaceDashR_cons, Hd', IHr. reflexivity.
Qed.

(** *** The grammar of an operation *)
















(** Digits above 2^53 are read as the nearest double: 2^53 + 1 is read as
    2^53, and 2^53 + 3 as 2^53 + 4. *)
Lemma large_magnitude_is_rounded :
  parseOperation asciiLower defaultConfig (js "water+9007199254740993")
  = Some (Operation.mk waterName PLUS 9007199254740992 false)
  /\ parseOperation asciiLower defaultConfig (js "water+9007199254740995")
     = Some (Operation.mk waterName PLUS 9007199254740996 false).
Proof. split; vm_compute; reflexivity. Qed.

(** [-r] right after the digits of an operation only sets the flag: the
    text parses as it does without it, excluded from the ranking. *)
Theorem trailing_dash_r_only_sets_flag toLowerCase config t c :
  isWordChar c = true ->
  testDashR None (t ++ [c]) = false ->
  parseOperation toLowerCase config (t ++ [c] ++ js "-r")
  = option_map
      (fun op =>
         Operation.mk (Operation.itemName op) (Operation.operation op)
           (Operation.value op) true)
      (parseOperation toLowerCase config (t ++ [c])).
Proof.
  intros Hw Ht.
  destruct (trailing_dashR None t c Hw Ht) as [Htest Hrepl].
  destruct (dashR_strip_spec (length (t ++ [c])) None (t ++ [c]) (le_n _))
    as (Hsame & _).
  unfold parseOperation, cleanText.
  rewrite Htest, Hrepl, Ht, (Hsame Ht).
  destruct (matchOperation (trim (t ++ [c]))) as [[[alias o] ds]|];
    [|reflexivity].
  destruct (getItemName toLowerCase config (trim alias)); reflexivity.
Qed.

Lemma water_minus_one_dash_r :
  parseOperation asciiLower defaultConfig (js "water-" ++ [49%N] ++ js "-r")
  = option_map
      (fun op =>
         Operation.mk (Operation.itemName op) (Operation.operation op)
           (Operation.value op) true)
      (parseOperation asciiLower defaultConfig (js "water-" ++ [49%N])).
Proof.
  apply (trailing_dash_r_only_sets_flag asciiLower defaultConfig
           (js "water-") 49%N).
  - reflexivity.
  - reflexivity.
Defined.

Lemma uintToString_digits d : forallb isDigit (uintToString d) = true.
Proof. induction d; cbn; auto. Qed.

Lemma decimalValue_uint_acc d acc :
  fold_left (fun a c => 10 * a + digitValue c) (uintToString d) (Zpos acc)
  = Zpos (Pos.of_uint_acc d acc).
Proof.
  revert acc.
  induction d; intros acc; cbn [uintToString fold_left Pos.of_uint_acc];
    [reflexivity|..];
    match goal with
    | |- fold_left _ _ ?x = Zpos (Pos.of_uint_acc _ ?y) =>
        replace x with (Zpos y)
          by (rewrite ?Pos2Z.inj_add, ?Pos2Z.inj_mul; unfold digitValue;
              simpl Z.of_N; lia)
    end; apply IHd.
Qed.

Lemma decimalValue_uint d :
  decimalValue (uintToString d) = Z.of_N (Pos.of_uint d).
Proof.
  unfold decimalValue.
  induction d; cbn [uintToString fold_left Pos.of_uint];
    [reflexivity|exact IHd|..];
    match goal with
    | |- fold_left _ _ ?x = Z.of_N (Npos (Pos.of_uint_acc _ ?y)) =>
        replace x with (Zpos y)
          by (rewrite ?Pos2Z.inj_add, ?Pos2Z.inj_mul; unfold digitValue;
              simpl Z.of_N; lia)
    end; apply decimalValue_uint_acc.
Qed.

Lemma shown_number_reads_back n :
  0 <= n ->
  decimalValue (numToString n) = n
  /\ numToString n <> []
  /\ forallb isDigit (numToString n) = true.
Proof.
  intros Hn. destruct n as [|p|p]; [repeat split; discriminate| |lia].
  cbn [numToString]. rewrite decimalValue_uint, DecimalPos.Unsigned.of_to.
  split; [reflexivity|]. split; [|apply uintToString_digits].
  intros Hnil.
  pose proof (DecimalPos.Unsigned.of_to p) as Hp.
  destruct (Pos.to_uint p); cbn in Hnil; try discriminate Hnil.
  cbn in Hp. discriminate Hp.
Qed.

(** A count of at most 2^53, as the replies print it, is read back as that
    count: the text alias, operator, decimal digits of [n] parses to the
    magnitude [n]. (Above 2^53 the digits are read as the nearest double,
    see [large_magnitude_is_rounded].) *)
Theorem printed_count_parses_back toLowerCase config text alias o n name :
  cleanText text = alias ++ o :: numToString n ->
  alias <> [] -> noLineTerminator alias = true ->
  isOperator o = true ->
  0 <= n -> n <= 2 ^ 53 ->
  getItemName toLowerCase config (trim alias) = Some name ->
  parseOperation toLowerCase config text
  = Some (Operation.mk name o n (testDashR None text)).
Proof.
  intros Hform Hne Hlt Ho Hn Hmax Hname.
  destruct (shown_number_reads_back n Hn) as (Hval & Hnil & Hd).
  rewrite (parseOperation_matched toLowerCase config text alias o
             (numToString n)).
  - unfold parseInt. rewrite Hname, Hval, (toDouble_exact n Hmax).
    reflexivity.
  - apply matchOperation_spec. repeat split; auto.
Qed.

Lemma water_equals_1024 :
  parseOperation asciiLower defaultConfig (js "water=" ++ numToString 1024)
  = Some (Operation.mk waterName EQUALS 1024 false).
Proof.
  apply (printed_count_parses_back asciiLower defaultConfig
           (js "water=" ++ numToString 1024) (js "water") EQUALS 1024
           waterName).
  - vm_compute. reflexivity.
  - discriminate.
  - reflexivity.
  - reflexivity.
  - lia.
  - lia.
  - vm_compute. reflexivity.
Defined.

(** When several items list the same alias (up to case) the last of them in
    the configuration answers for it; an alias that no item lists, or whose
    last item has the empty name, resolves to nothing. *)
Theorem alias_of_last_item_wins toLowerCase config alias :
  ((forall ci,
       In ci (Config.items config) ->
       hasAlias toLowerCase (toLowerCase alias) ci = false) ->
   getItemName toLowerCase config alias = None)
  /\ (forall earlier ci later,
        Config.items config = earlier ++ ci :: later ->
        hasAlias toLowerCase (toLowerCase alias) ci = true ->
        (forall c, In c later ->
                   hasAlias toLowerCase (toLowerCase alias) c = false) ->
        getItemName toLowerCase config alias
        = match ConfigItem.name ci with
          | [] => None
          | n => Some n
          end).
Proof.
  split.
  - intros Hnone. rewrite getItemName_spec.
    destruct (find _ _) as [ci|] eqn:Hf; [|reflexivity].
    apply find_some in Hf as [Hin Hhas]. apply in_rev in Hin.
    rewrite (Hnone ci Hin) in Hhas. discriminate.
  - intros earlier ci later Hitems Hhas Hlater.
    rewrite getItemName_spec, Hitems, rev_app_distr. cbn [rev].
    rewrite <- app_assoc, find_app.
    assert (Hf : find (hasAlias toLowerCase (toLowerCase alias)) (rev later)
                 = None).
    { destruct (find _ (rev later)) as [c|] eqn:Hf; [|reflexivity].
      apply find_some in Hf as [Hin Hc]. apply in_rev in Hin.
      rewrite (Hlater c Hin) in Hc. discriminate. }
    rewrite Hf. cbn [app find]. rewrite Hhas. reflexivity.
Qed.

Lemma shared_alias_goes_to_last_item :
  getItemName asciiLower
    (Config.mk [] [] [ConfigItem.mk (js "tea") [js "T"];
                      ConfigItem.mk (js "milk") [js "t"; js "m"]] [] [])
    (js "T")
  = Some (js "milk").
Proof.
  apply (proj2 (alias_of_last_item_wins asciiLower
                  (Config.mk [] [] [ConfigItem.mk (js "tea") [js "T"];
                                    ConfigItem.mk (js "milk") [js "t"; js "m"]]
                     [] [])
                  (js "T"))
           [ConfigItem.mk (js "tea") [js "T"]]
           (ConfigItem.mk (js "milk") [js "t"; js "m"]) []).
  - reflexivity.
  - reflexivity.
  - intros c [].
Defined.

(** The verification code always starts with a tag that is not empty: the
    configured one, trimmed and without one final colon, or [wmc_ref] when
    nothing is left of it. *)
Theorem verification_code_has_a_tag config e timestamp userId itemName :
  exists tag,
    createGetCode config e timestamp userId itemName
    = tag ++ js ": " ++ numToString timestamp ++ js "_" ++ userId ++ js "_"
      ++ itemName ++ js "_" ++ rand6 e
    /\ tag <> []
    /\ tag = match stripColon (trim (Config.getCodeTag config)) with
             | [] => js "wmc_ref"
             | t => t
             end.
Proof.
  unfold createGetCode. eexists. split; [reflexivity|].
  destruct (Config.getCodeTag config) as [|c tag] eqn:Htag.
  - split; [vm_compute; discriminate|]. vm_compute. reflexivity.
  - cbn [str_or].
    destruct (stripColon (trim (c :: tag))); cbn [str_or];
      split; try reflexivity; discriminate.
Qed.

(** ** Properties of the reports and of repeated writes *)

Lemma js_sort_of_descending {A} (key : A -> Z) l :
  descending key l -> js_sort (byKeyDesc key) l = l.
Proof.
  unfold descending. induction l as [|x l IH]; intros Hs; [reflexivity|].
  apply StronglySorted_cons in Hs as [Hx Hs]. cbn [js_sort].
  rewrite (IH Hs). destruct l as [|y l]; [reflexivity|].
  cbn [sort_insert]. unfold byKeyDesc at 1.
  apply Forall_cons in Hx as [Hy _].
  destruct (Z.leb_spec (key y - key x) 0); [reflexivity|lia].
Qed.

(** Writing the history twice in a row is the same as writing it once: the
    second write finds the log in the order the first one left it in and
    puts the same entries in the file. *)
Theorem history_write_is_idempotent st :
  fireRecordsTimer IoOk (fireRecordsTimer IoOk st)
  = fireRecordsTimer IoOk st.
Proof.
  destruct st as [sd nid [cache|] stm rtm ifile rfile];
    unfold fireRecordsTimer; cbn; [|reflexivity].
  assert (Hs : sortRecords (sortRecords cache) = sortRecords cache)
    by (apply (js_sort_of_descending StockRecord.timestamp),
          sortRecords_descending).
  rewrite Hs. reflexivity.
Qed.

(** The entries a query shows are at most five entries of the log, all of
    the item asked for, in ascending order of timestamp, and every other
    entry of that item is no newer than any of them. *)
Theorem query_shows_newest_five itemName log :
  let shown := queryRecent itemName log in
  let ofItem :=
    List.filter (fun r => bool_decide (StockRecord.itemName r = itemName))
      log in
  (length shown <= 5)%nat
  /\ ascending StockRecord.timestamp shown
  /\ (forall r, In r shown -> In r log /\ StockRecord.itemName r = itemName)
  /\ exists omitted,
       ofItem ≡ₚ omitted ++ shown
       /\ forall a b,
            a ∈ omitted -> b ∈ shown ->
            StockRecord.timestamp a <= StockRecord.timestamp b.
Proof.
  intros shown ofItem.
  pose proof (js_sort_descending StockRecord.timestamp ofItem) as Hd.
  destruct (descending_take StockRecord.timestamp 5 _ Hd) as [Ht Hcut].
  assert (Hperm : ofItem
                  ≡ₚ drop 5 (js_sort (byKeyDesc StockRecord.timestamp) ofItem)
                     ++ shown).
  { unfold shown, queryRecent. fold ofItem.
    change (fun a b : StockRecord.t =>
              StockRecord.timestamp b - StockRecord.timestamp a)
      with (byKeyDesc StockRecord.timestamp).
    rewrite <- (js_sort_perm (byKeyDesc StockRecord.timestamp) ofItem) at 1.
    rewrite <- (take_drop 5 (js_sort _ ofItem)) at 1.
    rewrite Permutation_app_comm.
    apply Permutation_app_head, Permutation_rev. }
  split; [unfold shown, queryRecent; rewrite length_rev, length_take; lia|].
  split; [apply descending_rev; exact Ht|].
  split.
  - intros r Hr.
    assert (Hin : In r ofItem).
    { apply list_elem_of_In. rewrite Hperm. apply list_elem_of_In.
      apply in_or_app. right. exact Hr. }
    apply filter_In in Hin as [Hin Hn].
    apply bool_decide_eq_true in Hn. auto.
  - eexists. split; [exact Hperm|].
    intros a b Ha Hb. apply (Hcut b a); [|exact Ha].
    unfold shown, queryRecent in Hb.
    apply list_elem_of_In, in_rev, list_elem_of_In in Hb. exact Hb.
Qed.

Lemma replaceAll_without_first pat0 pat repl passed s :
  Forall (fun c => c <> pat0) s ->
  replaceAllFrom (pat0 :: pat) repl 0 passed s = s.
Proof.
  revert passed. induction s as [|c s IH]; intros passed Hs; [reflexivity|].
  apply Forall_cons in Hs as [Hc Hs]. cbn [replaceAllFrom isPrefixOf].
  destruct (N.eqb_spec pat0 c) as [->|_]; [congruence|].
  cbn [andb]. rewrite (IH _ Hs). reflexivity.
Qed.

Lemma replaceAll_no_brace pat repl s :
  Forall (fun c => c <> 123%N) s ->
  replaceAll (123%N :: pat) repl s = s.
Proof. apply replaceAll_without_first. Qed.

(** A query only reads: it leaves the item table, both files and both
    timers as they are; for an item missing from the table it says
    nothing, otherwise it answers; and a template without an opening brace
    is answered as it stands. *)
Theorem query_only_reads template e itemName st :
  let st' := fst (handleQuery template e itemName st) in
  let reply := snd (handleQuery template e itemName st) in
  stockData st' = stockData st
  /\ saveTimer st' = saveTimer st
  /\ recordsTimer st' = recordsTimer st
  /\ itemsFile st' = itemsFile st
  /\ recordsFile st' = recordsFile st
  /\ (stockData st !! itemName = None -> st' = st /\ reply = None)
  /\ (is_Some (stockData st !! itemName) ->
      is_Some reply
      /\ (Forall (fun c => c <> 123%N) template -> reply = Some template)).
Proof.
  intros st' reply. subst st' reply. unfold handleQuery.
  destruct (stockData st !! itemName) as [item|] eqn:Hitem.
  - pose proof (getRecords_frame e st) as (H1 & H2 & H3 & H4 & H5).
    destruct (getRecords e st) as [allRecords st1]. cbn [fst snd] in *.
    repeat split; try assumption; try discriminate; eauto.
    intros Ht. f_equal.
    change (js "{name}") with (123%N :: js "name}").
    change (js "{count}") with (123%N :: js "count}").
    change (js "{totalAdded}") with (123%N :: js "totalAdded}").
    change (js "{totalConsumed}") with (123%N :: js "totalConsumed}").
    change (js "{recentRecords}") with (123%N :: js "recentRecords}").
    rewrite (replaceAll_no_brace _ itemName template Ht).
    rewrite !(replaceAll_no_brace _ _ template Ht). reflexivity.
  - cbn [fst snd]. repeat split; try reflexivity;
      match goal with H : is_Some None |- _ => destruct H; discriminate end.
Qed.

Lemma plain_template_is_the_answer :
  snd (handleQuery (js "ask the keeper") (demoEnv 3000) waterName stockOfTwo)
  = Some (js "ask the keeper").
Proof.
  apply (query_only_reads (js "ask the keeper") (demoEnv 3000) waterName
           stockOfTwo).
  - exists (waterItem 2 5 3). vm_compute. reflexivity.
  - repeat constructor; discriminate.
Defined.

Lemma getItemName_configured toLowerCase config alias n :
  getItemName toLowerCase config alias = Some n ->
  exists ci, In ci (Config.items config) /\ ConfigItem.name ci = n.
Proof.
  rewrite getItemName_spec.
  destruct (find _ _) as [ci|] eqn:Hf; [|discriminate].
  apply find_some in Hf as [Hin _]. apply in_rev in Hin.
  intros Hn. exists ci. split; [exact Hin|].
  destruct (ConfigItem.name ci); [discriminate|congruence].
Qed.

(** After start-up, an accepted [rank] request is answered with the title
    of its type (consumption when no type is given) and the ranking of the
    item, which is never the empty string; a type other than [consume] and
    [add] is refused; in neither case does the item table change. *)
Theorem rank_shows_a_ranking_or_refuses toLowerCase config canonicalize st e
    session item type name :
  Reachable toLowerCase config canonicalize st ->
  Session.channelId session <> [] ->
  isWhitelisted config (Session.channelId session) = true ->
  item <> [] ->
  getItemName toLowerCase config item = Some name ->
  let result := rankCommand toLowerCase config e session item type st in
  stockData (fst result) = stockData st
  /\ (type = [] \/ type = js "consume" ->
      exists ranking,
        ranking <> []
        /\ ranking
           = renderRanking consume
               (rankingRows consume name (fst (getRecords e st)))
        /\ snd result
           = Some (name ++ js "消耗排行榜" ++ js "：" ++ NL ++ ranking))
  /\ (type = js "add" ->
      exists ranking,
        ranking <> []
        /\ ranking
           = renderRanking add (rankingRows add name (fst (getRecords e st)))
        /\ snd result
           = Some (name ++ js "累计排行榜" ++ js "：" ++ NL ++ ranking))
  /\ (type <> [] -> type <> js "consume" -> type <> js "add" ->
      result = (st, Some (js "排行榜类型必须是 consume（消耗）或 add（累计）"))).
Proof.
  intros Hr Hch Hw Hitem Hn result.
  destruct (getItemName_configured _ _ _ _ Hn) as (ci & Hin & Hci).
  destruct (reachable_configuredPresent toLowerCase config canonicalize st Hr ci Hin)
    as [it Hit].
  rewrite Hci in Hit.
  assert (Hrank : forall T,
             getRanking e name T st
             = (renderRanking T (rankingRows T name (fst (getRecords e st))),
                snd (getRecords e st))).
  { intros T. unfold getRanking. rewrite Hit.
    destruct (getRecords e st). reflexivity. }
  pose proof (getRecords_frame e st) as (Hsd & _).
  subst result. unfold rankCommand.
  rewrite (bool_decide_eq_false_2 _ Hch), Hw.
  rewrite (bool_decide_eq_false_2 _ Hitem), Hn. cbn [negb].
  rewrite !Hrank.
  destruct (bool_decide_reflect (str_or type (js "consume") = js "consume"))
    as [Hc|Hc].
  { cbn [fst snd]. split; [exact Hsd|].
    split.
    - intros _. eexists. split; [apply renderRanking_nonempty|].
      split; reflexivity.
    - split.
      + intros ->. discriminate Hc.
      + intros Hne Hnc. destruct type; [congruence|].
        cbn [str_or] in Hc. congruence. }
  destruct (bool_decide_reflect (str_or type (js "consume") = js "add"))
    as [Ha|Ha].
  { cbn [fst snd]. split; [exact Hsd|].
    split; [intros [-> | ->]; exfalso; apply Hc; reflexivity|].
    split.
    - intros _. eexists. split; [apply renderRanking_nonempty|].
      split; reflexivity.
    - intros Hne _ Hna. destruct type; [congruence|].
      cbn [str_or] in Ha. congruence. }
  cbn [fst snd]. split; [reflexivity|].
  split; [intros [-> | ->]; exfalso; apply Hc; reflexivity|].
  split; [intros ->; exfalso; apply Ha; reflexivity|].
  reflexivity.
Qed.

Lemma rank_water_without_type :
  exists ranking,
    ranking <> []
    /\ ranking
       = renderRanking consume
           (rankingRows consume waterName
              (fst (getRecords (demoEnv 3000) stockOfTwo)))
    /\ snd (rankCommand asciiLower defaultConfig (demoEnv 3000)
              (demoSession "") (js "water") [] stockOfTwo)
       = Some (waterName ++ js "消耗排行榜" ++ js "：" ++ NL ++ ranking).
Proof.
  apply (rank_shows_a_ranking_or_refuses asciiLower defaultConfig asciiUpper
           stockOfTwo (demoEnv 3000) (demoSession "") (js "water") []
           waterName).
  - exact stockOfTwo_reachable.
  - discriminate.
  - reflexivity.
  - discriminate.
  - vm_compute. reflexivity.
  - left. reflexivity.
Defined.

(** ** Properties of the query matcher *)

Lemma expandReplacement_plain matched before after repl :
  Forall (fun c => c <> 36%N) repl ->
  expandReplacement matched before after repl = repl.
Proof.
  induction repl as [|c r IH]; intros Hr; [reflexivity|].
  apply Forall_cons in Hr as [Hc Hr]. cbn [expandReplacement].
  destruct (N.eqb_spec c 36); [congruence|]. rewrite (IH Hr). reflexivity.
Qed.

Lemma isPrefixOf_app p s : isPrefixOf p (p ++ s) = true.
Proof.
  induction p as [|c p IH]; [destruct s; reflexivity|].
  cbn. rewrite N.eqb_refl. exact IH.
Qed.

Lemma replaceAllFrom_skip pat repl u passed s :
  replaceAllFrom pat repl (length u) passed (u ++ s)
  = replaceAllFrom pat repl 0 (rev u ++ passed) s.
Proof.
  revert passed. induction u as [|c u IH]; intros passed; [reflexivity|].
  cbn [length app replaceAllFrom rev]. rewrite IH, <- app_assoc. reflexivity.
Qed.

(** One occurrence of the pattern at the head, and no place further on
    where another could start. *)
Lemma replaceAll_head pat0 pat repl s :
  Forall (fun c => c <> 36%N) repl ->
  Forall (fun c => c <> pat0) s ->
  replaceAll (pat0 :: pat) repl ((pat0 :: pat) ++ s) = repl ++ s.
Proof.
  intros Hrepl Hs. unfold replaceAll.
  change ((pat0 :: pat) ++ s) with (pat0 :: (pat ++ s)).
  cbn [replaceAllFrom].
  change (pat0 :: (pat ++ s)) with ((pat0 :: pat) ++ s).
  rewrite isPrefixOf_app, (expandReplacement_plain _ _ _ _ Hrepl).
  replace (length (pat0 :: pat) - 1)%nat with (length pat)
    by (cbn [length]; lia).
  rewrite replaceAllFrom_skip.
  rewrite (replaceAll_without_first _ _ _ _ _ Hs). reflexivity.
Qed.

Lemma not_special c :
  isRegExpSpecial c = false -> (40 =? c)%N = false /\ (c =? 92)%N = false.
Proof.
  intros H. split.
  - destruct (N.eqb_spec 40 c) as [<-|]; [discriminate H|reflexivity].
  - destruct (N.eqb_spec c 92) as [->|]; [discriminate H|reflexivity].
Qed.

Lemma escapeRegExp_keeps_absent c0 s :
  c0 <> 92%N ->
  Forall (fun c => c <> c0) s -> Forall (fun c => c <> c0) (escapeRegExp s).
Proof.
  intros Hc0. induction s as [|c s IH]; intros Hs; [constructor|].
  apply Forall_cons in Hs as [Hc Hs]. cbn [escapeRegExp flat_map].
  destruct (isRegExpSpecial c); cbn [app]; repeat constructor;
    auto; try (apply IH, Hs); congruence.
Qed.

Lemma compile_escaped s :
  compileFrom 0 (escapeRegExp s) = Some (map Lit s).
Proof.
  induction s as [|c s IH]; [reflexivity|].
  cbn [escapeRegExp flat_map map].
  fold (escapeRegExp s).
  destruct (isRegExpSpecial c) eqn:Hc; cbn [app compileFrom].
  - change (isPrefixOf (js "(.+?)") (92%N :: c :: escapeRegExp s)) with false.
    change (92 =? 92)%N with true. cbv iota. rewrite Hc, IH. reflexivity.
  - destruct (not_special c Hc) as [H40 H92].
    match goal with
    | |- context [isPrefixOf ?p ?l] => assert (Hp : isPrefixOf p l = false)
    end.
    { change (js "(.+?)") with [40%N; 46%N; 43%N; 63%N; 41%N].
      cbn [isPrefixOf]. rewrite H40. reflexivity. }
    rewrite Hp, H92, Hc, IH. reflexivity.
Qed.

Lemma compile_group_escaped s :
  compileFrom 0 (js "(.+?)" ++ escapeRegExp s) = Some (Group :: map Lit s).
Proof.
  change (js "(.+?)") with [40%N; 46%N; 43%N; 63%N; 41%N].
  cbn [app compileFrom isPrefixOf N.eqb Pos.eqb andb].
  rewrite compile_escaped. reflexivity.
Qed.

Lemma escapeRegExp_Escaped s : Escaped (escapeRegExp s).
Proof.
  induction s as [|c s IH]; [constructor|].
  cbn [escapeRegExp flat_map]. fold (escapeRegExp s).
  destruct (isRegExpSpecial c) eqn:Hc; cbn [app]; constructor; assumption.
Qed.

Lemma Escaped_after_plain u s :
  Forall (fun c => isRegExpSpecial c = false) u ->
  Escaped (u ++ s) -> Escaped s.
Proof.
  induction u as [|a u IH]; intros Hu He; [exact He|].
  apply Forall_cons in Hu as [Ha Hu]. cbn [app] in He.
  inversion He; subst.
  - apply IH; assumption.
  - discriminate Ha.
Qed.

Lemma isPrefixOf_true p s : isPrefixOf p s = true -> exists r, s = p ++ r.
Proof.
  revert s. induction p as [|c p IH]; intros s H; [exists s; reflexivity|].
  destruct s as [|d s]; [discriminate|]. cbn [isPrefixOf] in H.
  apply andb_true_iff in H as [Hc Hp]. apply N.eqb_eq in Hc as <-.
  destruct (IH s Hp) as [r ->]. exists r. reflexivity.
Qed.

(** Putting the group in place of a marker made of code units that are not
    special turns an escaped text into a source [compileFrom] reads. *)
Lemma replaceAll_Readable p0 ptail n s passed :
  Forall (fun c => isRegExpSpecial c = false) (p0 :: ptail) ->
  (length s <= n)%nat -> Escaped s ->
  Readable (replaceAllFrom (p0 :: ptail) (js "(.+?)") 0 passed s).
Proof.
  intros Hpat. apply Forall_cons in Hpat as [Hp0 Hpt].
  revert s passed. induction n as [|n IH]; intros s passed Hlen He.
  { destruct s; [constructor|cbn [length] in Hlen; lia]. }
  inversion He as [|c s' Hc He'|c s' Hc He']; subst.
  - constructor.
  - cbn [replaceAllFrom].
    destruct (isPrefixOf (p0 :: ptail) (c :: s')) eqn:Hp.
    + apply isPrefixOf_true in Hp as [r Hr]. injection Hr as -> ->.
      rewrite expandReplacement_plain
        by (vm_compute; repeat constructor; discriminate).
      replace (length (p0 :: ptail) - 1)%nat with (length ptail)
        by (cbn [length]; lia).
      rewrite replaceAllFrom_skip. apply Readable_group, IH.
      * cbn [length] in Hlen. rewrite length_app in Hlen. lia.
      * apply (Escaped_after_plain ptail); assumption.
    + apply Readable_plain; [exact Hc|].
      apply IH; [cbn [length] in Hlen; lia|exact He'].
  - cbn [replaceAllFrom isPrefixOf].
    assert (H92 : (p0 =? 92)%N = false).
    { destruct (N.eqb_spec p0 92) as [->|]; [discriminate Hp0|reflexivity]. }
    assert (Hpc : (p0 =? c)%N = false).
    { destruct (N.eqb_spec p0 c) as [->|]; [congruence|reflexivity]. }
    rewrite H92, Hpc. cbn [andb]. apply Readable_pair; [exact Hc|].
    apply IH; [cbn [length] in Hlen; lia|exact He'].
Qed.

Lemma compile_Readable s : Readable s -> is_Some (compileFrom 0 s).
Proof.
  induction 1 as [|c s Hc _ IH|c s Hc _ IH|s _ IH].
  - eexists. reflexivity.
  - destruct IH as [ts IH]. destruct (not_special c Hc) as [H40 H92].
    cbn [compileFrom].
    match goal with
    | |- context [isPrefixOf ?p ?l] => assert (Hp : isPrefixOf p l = false)
    end.
    { change (js "(.+?)") with [40%N; 46%N; 43%N; 63%N; 41%N].
      cbn [isPrefixOf]. rewrite H40. reflexivity. }
    rewrite Hp, H92, Hc, IH. eexists. reflexivity.
  - destruct IH as [ts IH]. cbn [compileFrom].
    change (isPrefixOf (js "(.+?)") (92%N :: c :: s)) with false.
    change (92 =? 92)%N with true. cbv iota. rewrite Hc, IH.
    eexists. reflexivity.
  - destruct IH as [ts IH].
    change (js "(.+?)") with [40%N; 46%N; 43%N; 63%N; 41%N].
    cbn [app compileFrom isPrefixOf N.eqb Pos.eqb andb].
    rewrite IH. eexists. reflexivity.
Qed.

(** Every template gives a source that [compileFrom] reads: the answer
    [QueryUnsupported] is never given. *)
Lemma queryPattern_compiles template :
  is_Some (compileFrom 0 (queryPattern template)).
Proof.
  apply compile_Readable. unfold queryPattern, replaceAll.
  change tempMarker with (95%N :: js "_NAME_PLACEHOLDER__").
  eapply (replaceAll_Readable 95%N (js "_NAME_PLACEHOLDER__"));
    [vm_compute; repeat constructor|apply le_n|apply escapeRegExp_Escaped].
Qed.

Lemma isQueryMessage_supported toLowerCase config canonicalize queryMessages
    text :
  isQueryMessage toLowerCase config canonicalize queryMessages text
  <> QueryUnsupported.
Proof.
  induction queryMessages as [|template rest IH]; cbn [isQueryMessage];
    [discriminate|].
  destruct (queryPattern_compiles template) as [tokens ->].
  destruct (firstGroup canonicalize tokens text) as [[alias|]|];
    [|discriminate|exact IH].
  destruct (getItemName toLowerCase config alias); [discriminate|exact IH].
Qed.

(** The pattern of a template without brace and underscore is the escaped
    template; with [{name}] in front of such a text it is the group
    followed by the escaped text. *)
Lemma queryPattern_plain t :
  Forall (fun c => c <> 123%N) t -> Forall (fun c => c <> 95%N) t ->
  queryPattern t = escapeRegExp t.
Proof.
  intros Hb Hu. unfold queryPattern.
  assert (H1 : replaceAll (js "{name}") tempMarker t = t)
    by (apply (replaceAll_no_brace (js "name}") tempMarker t Hb)).
  rewrite H1.
  apply (replaceAll_without_first 95 (js "_NAME_PLACEHOLDER__")).
  apply escapeRegExp_keeps_absent; [discriminate|exact Hu].
Qed.

Lemma queryPattern_leading suffix :
  Forall (fun c => c <> 123%N) suffix -> Forall (fun c => c <> 95%N) suffix ->
  queryPattern (js "{name}" ++ suffix) = js "(.+?)" ++ escapeRegExp suffix.
Proof.
  intros Hb Hu. unfold queryPattern.
  assert (H1 : replaceAll (js "{name}") tempMarker (js "{name}" ++ suffix)
               = tempMarker ++ suffix).
  { apply (replaceAll_head 123 (js "name}") tempMarker suffix);
      [vm_compute; repeat constructor; discriminate|exact Hb]. }
  rewrite H1. unfold escapeRegExp at 1. rewrite flat_map_app.
  fold (escapeRegExp suffix).
  assert (H2 : flat_map
                 (fun c => if isRegExpSpecial c then [92%N; c] else [c])
                 tempMarker
               = tempMarker) by (vm_compute; reflexivity).
  rewrite H2.
  apply (replaceAll_head 95 (js "_NAME_PLACEHOLDER__") (js "(.+?)")).
  - vm_compute. repeat constructor; discriminate.
  - apply escapeRegExp_keeps_absent; [discriminate|exact Hu].
Qed.

Section MatcherFacts.
Variable canonicalize : code_unit -> code_unit.

Lemma matchTokens_lits t s :
  matchTokens canonicalize (map Lit t) s = true
  <-> map canonicalize s = map canonicalize t.
Proof.
  revert s. induction t as [|c t IH]; intros s; cbn [map matchTokens].
  - rewrite bool_decide_eq_true. destruct s; [tauto|].
    split; discriminate.
  - destruct s as [|d s]; [split; discriminate|]. cbn [map].
    rewrite andb_true_iff, N.eqb_eq, IH. split.
    + intros [-> ->]. reflexivity.
    + intros H. injection H as -> ->. auto.
Qed.

Lemma firstGroup_lits t s :
  map canonicalize s = map canonicalize t ->
  firstGroup canonicalize (map Lit t) s = Some None.
Proof.
  revert s. induction t as [|c t IH]; intros [|d s] H; try discriminate H.
  - reflexivity.
  - cbn [map] in H. injection H as Hd Hs. cbn [map firstGroup].
    rewrite Hd, N.eqb_refl. apply IH, Hs.
Qed.

Lemma matchTokens_lits_length t s :
  matchTokens canonicalize (map Lit t) s = true -> length s = length t.
Proof.
  intros H. apply matchTokens_lits in H.
  apply (f_equal length) in H. rewrite !length_map in H. exact H.
Qed.

Lemma growCapture_alias suffix taken alias tail :
  alias <> [] -> noLineTerminator alias = true ->
  map canonicalize tail = map canonicalize suffix ->
  growCapture (matchTokens canonicalize (map Lit suffix)) taken (alias ++ tail)
  = Some (Some (taken ++ alias)).
Proof.
  intros Hne Hlt Htail. revert taken.
  induction alias as [|d alias IH]; intros taken; [congruence|].
  cbn in Hlt. apply andb_true_iff in Hlt as [Hd Hlt].
  apply negb_true_iff in Hd. cbn [app growCapture]. rewrite Hd.
  destruct alias as [|d' alias].
  - cbn [app]. rewrite (proj2 (matchTokens_lits suffix tail) Htail).
    reflexivity.
  - destruct (matchTokens canonicalize (map Lit suffix) ((d' :: alias) ++ tail))
      eqn:Hm.
    + apply matchTokens_lits_length in Hm.
      apply (f_equal length) in Htail. rewrite !length_map in Htail.
      rewrite length_app in Hm. cbn [length] in Hm. lia.
    + rewrite (IH ltac:(discriminate) Hlt), <- app_assoc. reflexivity.
Qed.

Lemma growCapture_short suffix taken s :
  (length s <= length suffix)%nat ->
  growCapture (matchTokens canonicalize (map Lit suffix)) taken s = None.
Proof.
  revert taken. induction s as [|d s IH]; intros taken Hlen; [reflexivity|].
  cbn [growCapture]. destruct (isLineTerminator d); [reflexivity|].
  cbn [length] in Hlen.
  destruct (matchTokens canonicalize (map Lit suffix) s) eqn:Hm.
  - apply matchTokens_lits_length in Hm. lia.
  - apply IH. lia.
Qed.
End MatcherFacts.

(** A query template that holds no placeholder (no brace, no underscore)
    makes [isQueryMessage] throw on the text that matches it: there is no
    first group, and [getItemName] is called on [undefined]. *)
Theorem template_without_placeholder_throws toLowerCase config canonicalize
    template rest text :
  Forall (fun c => c <> 123%N) template ->
  Forall (fun c => c <> 95%N) template ->
  map canonicalize text = map canonicalize template ->
  isQueryMessage toLowerCase config canonicalize (template :: rest) text
  = QueryThrows.
Proof.
  intros Hb Hu Hm. cbn [isQueryMessage].
  rewrite (queryPattern_plain template Hb Hu), compile_escaped.
  rewrite (firstGroup_lits canonicalize template text Hm). reflexivity.
Qed.

Lemma help_template_throws :
  isQueryMessage asciiLower defaultConfig asciiUpper
    [js "help"; js "{name}j"] (js "Help")
  = QueryThrows.
Proof.
  apply template_without_placeholder_throws.
  - repeat constructor; discriminate.
  - repeat constructor; discriminate.
  - reflexivity.
Defined.

(** A template made of [{name}] and a text after it (free of braces and
    underscores): on alias ++ tail, where the tail equals that text up to
    case, the captured alias is looked up, and an unknown alias hands over
    to the next template; a text no longer than the part after the
    placeholder is not matched at all. *)
Theorem leading_placeholder_captures_alias toLowerCase config canonicalize
    suffix rest :
  Forall (fun c => c <> 123%N) suffix ->
  Forall (fun c => c <> 95%N) suffix ->
  (forall alias tail,
      alias <> [] -> noLineTerminator alias = true ->
      map canonicalize tail = map canonicalize suffix ->
      isQueryMessage toLowerCase config canonicalize
        ((js "{name}" ++ suffix) :: rest) (alias ++ tail)
      = match getItemName toLowerCase config alias with
        | Some itemName => QueryItem itemName
        | None =>
            isQueryMessage toLowerCase config canonicalize rest (alias ++ tail)
        end)
  /\ (forall text,
        (length text <= length suffix)%nat ->
        isQueryMessage toLowerCase config canonicalize
          ((js "{name}" ++ suffix) :: rest) text
        = isQueryMessage toLowerCase config canonicalize rest text).
Proof.
  intros Hb Hu. split.
  - intros alias tail Hne Hlt Htail. cbn [isQueryMessage].
    rewrite (queryPattern_leading suffix Hb Hu), compile_group_escaped.
    cbn [firstGroup].
    rewrite (growCapture_alias canonicalize suffix [] alias tail Hne Hlt Htail).
    reflexivity.
  - intros text Hlen. cbn [isQueryMessage].
    rewrite (queryPattern_leading suffix Hb Hu), compile_group_escaped.
    cbn [firstGroup].
    rewrite (growCapture_short canonicalize suffix [] text Hlen). reflexivity.
Qed.

Lemma water_how_many :
  isQueryMessage asciiLower defaultConfig asciiUpper
    [js "{name}" ++ js "有多少"] (js "Water" ++ js "有多少")
  = QueryItem waterName.
Proof.
  rewrite (proj1 (leading_placeholder_captures_alias asciiLower defaultConfig
                    asciiUpper (js "有多少") []
                    ltac:(repeat constructor; discriminate)
                    ltac:(repeat constructor; discriminate))
             (js "Water") (js "有多少")).
  - vm_compute. reflexivity.
  - discriminate.
  - reflexivity.
  - reflexivity.
Defined.

(** ** How operations compose *)

(** A set repeated with the same value does nothing the second time: the
    state after the second message is the state after the first. *)
Theorem repeated_set_is_noop config e1 e2 session1 session2 op st item :
  stockData st !! Operation.itemName op = Some item ->
  Operation.operation op = EQUALS ->
  let st1 := fst (handleOperation config e1 session1 op st) in
  fst (handleOperation config e2 session2 op st1) = st1.
Proof.
  intros Hitem Hop st1.
  destruct (mutate_equals op item Hop) as (Hzero & Hpos & Hneg).
  assert (Hst1 : exists item1,
             stockData st1 !! Operation.itemName op = Some item1
             /\ StockItem.count item1 = Operation.value op).
  { destruct (Z.lt_trichotomy (Operation.value op - StockItem.count item) 0)
      as [Hd | [Hd | Hd]].
    - destruct (Hneg Hd) as (item' & Hmut & Hc & _).
      destruct (handleOperation_mutating config e1 session1 op st _ _ _ _
                  Hitem Hmut) as (Hsd & _).
      exists item'. subst st1. rewrite Hsd.
      split; [apply lookup_after_save|exact Hc].
    - exists item. subst st1. unfold handleOperation.
      rewrite Hitem, (Hzero Hd). split; [exact Hitem|lia].
    - destruct (Hpos ltac:(lia)) as (item' & Hmut & Hc & _).
      destruct (handleOperation_mutating config e1 session1 op st _ _ _ _
                  Hitem Hmut) as (Hsd & _).
      exists item'. subst st1. rewrite Hsd.
      split; [apply lookup_after_save|exact Hc]. }
  destruct Hst1 as (item1 & Hitem1 & Hc1).
  destruct (mutate_equals op item1 Hop) as (Hzero1 & _).
  unfold handleOperation at 1. rewrite Hitem1, (Hzero1 ltac:(lia)).
  reflexivity.
Qed.

Lemma set_seven_twice :
  fst (handleOperation defaultConfig (demoEnv 4000) (demoSession "water=7")
         (Operation.mk waterName EQUALS 7 false)
         (fst (handleOperation defaultConfig (demoEnv 3000)
                 (demoSession "water=7")
                 (Operation.mk waterName EQUALS 7 false) stockOfTwo)))
  = fst (handleOperation defaultConfig (demoEnv 3000) (demoSession "water=7")
           (Operation.mk waterName EQUALS 7 false) stockOfTwo).
Proof.
  apply (repeated_set_is_noop defaultConfig (demoEnv 3000) (demoEnv 4000)
           (demoSession "water=7") (demoSession "water=7")
           (Operation.mk waterName EQUALS 7 false) stockOfTwo
           (waterItem 2 5 3)).
  - vm_compute. reflexivity.
  - reflexivity.
Defined.



(** The second entry of [renameLog] is shown for its item. *)
Lemma query_on_rename_log :
  In (StockRecord.mk 2 waterName (js "10001") (js "New") 2 2000 true) renameLog
  /\ StockRecord.itemName
       (StockRecord.mk 2 waterName (js "10001") (js "New") 2 2000 true)
     = waterName.
Proof.
  apply (query_shows_newest_five waterName renameLog).
  vm_compute. right. left. reflexivity.
Defined.

(** ** Queries in the chat *)

(** A chat text that is no operation and matches a query template with a
    known alias is answered with the report of [handleQuery] on that item:
    the listener says something, and changes nothing but the loaded
    history (no counter, timer or file). *)
Theorem query_message_is_answered toLowerCase config canonicalize e session st
    itemName item :
  Session.channelId session <> [] ->
  Session.channelId session <> Session.userId session ->
  isWhitelisted config (Session.channelId session) = true ->
  trim (Session.content session) <> [] ->
  parseOperation toLowerCase config (trim (Session.content session)) = None ->
  isQueryMessage toLowerCase config canonicalize (Config.queryMessages config)
    (trim (Session.content session))
  = QueryItem itemName ->
  stockData st !! itemName = Some item ->
  let result := onMessage toLowerCase config canonicalize e session st in
  result = handleQuery (Config.defaultQueryMessage config) e itemName st
  /\ snd result <> None
  /\ stockData (fst result) = stockData st
  /\ recordsCache (fst result) = Some (fst (getRecords e st))
  /\ saveTimer (fst result) = saveTimer st
  /\ recordsTimer (fst result) = recordsTimer st
  /\ itemsFile (fst result) = itemsFile st
  /\ recordsFile (fst result) = recordsFile st.
Proof.
  intros Hch Hpriv Hw Htext Hop Hq Hitem result.
  assert (Hrun : result
                 = handleQuery (Config.defaultQueryMessage config) e itemName
                     st).
  { subst result. unfold onMessage.
    rewrite (bool_decide_eq_false_2 _ Hch), (bool_decide_eq_false_2 _ Hpriv),
      Hw.
    cbn [orb negb].
    destruct (trim (Session.content session)) as [|c text] eqn:Ht;
      [congruence|].
    rewrite Hop, Hq. reflexivity. }
  split; [exact Hrun|]. rewrite Hrun. unfold handleQuery. rewrite Hitem.
  pose proof (getRecords_frame e st) as (Hsd & Hs & Hr & Hi & Hf).
  pose proof (getRecords_cache e st) as Hc.
  destruct (getRecords e st) as [all st1]. cbn [fst snd] in *.
  repeat split; try assumption. discriminate.
Qed.

(** [water有多少] after [water+5] and [water-3]. *)
Lemma water_how_many_is_answered :
  snd (onMessage asciiLower defaultConfig asciiUpper (demoEnv 3000)
         (demoSession "water有多少") stockOfTwo)
  = Some (js "纯净水当前库存：2瓶" ++ NL ++ js "累计添加：5瓶" ++ NL
          ++ js "累计消耗：3瓶" ++ NL ++ js "最近操作：Alice +5" ++ NL
          ++ js "Alice -3").
Proof.
  rewrite (proj1 (query_message_is_answered asciiLower defaultConfig
                    asciiUpper (demoEnv 3000) (demoSession "water有多少")
                    stockOfTwo waterName (waterItem 2 5 3)
                    ltac:(discriminate) ltac:(discriminate) eq_refl
                    ltac:(discriminate) eq_refl eq_refl eq_refl)).
  vm_compute. reflexivity.
Defined.
